(** * Cost model of team-ai-kostnadsoverslag: scenario tables and cost attribution

    Shallow embedding of [src/cost_model.py] (the loop variant of
    [make_df_cost]) and [src/functions/cost_model.py] (the meshgrid variant),
    and of [calculate_total_cost], whose body is the same in both files.

    Numbers.  The tables are modelled over exact canonical rationals [Qc]:
    a cell holds the value that the expression computing it denotes.  What
    the interpreter computes with (Python ints of any size, numpy [int64]
    with wrap-around, binary64 floats with rounding) is modelled in [Machine],
    for the expressions that fill the derived columns.  Statements that say
    which rows a table has and which expression a cell holds are made on the
    tables; statements that need laws of arithmetic are checked against
    [Machine].

    Tables.  A pandas DataFrame is an index length together with an ordered
    list of named numeric columns.  The pricing table additionally carries the
    string-valued identifier column ['modell'] that the code compares against
    the requested model names. *)

From Stdlib Require Import QArith Qcanon Field SpecFloat.
From stdpp Require Import base list numbers strings.

Local Open Scope string_scope.
Local Open Scope list_scope.

(** ** Numbers *)

Definition of_Z (z : Z) : Qc := Q2Qc (inject_Z z).

(** A decimal literal such as [1.33] is [decimal 133 100]. *)
Definition decimal (n : Z) (d : positive) : Qc := Q2Qc (n # d).

(** ** Exceptions *)

Inductive exn : Type :=
| KeyError      (* a column label is absent *)
| ValueError    (* shapes or lengths do not fit, nothing to concatenate *)
| TypeError     (* an argument is not a table of the expected kind *)
| OverflowError. (* a number is too large for a float *)

Inductive result (A : Type) : Type :=
| Ok (a : A)
| Raise (e : exn).
Arguments Ok {A} a.
Arguments Raise {A} e.

#[global] Instance result_ret : MRet result := fun A a => Ok a.

#[global] Instance result_bind : MBind result := fun A B k m =>
  match m with
  | Ok a => k a
  | Raise e => Raise e
  end.

#[global] Instance result_fmap : FMap result := fun A B f m =>
  match m with
  | Ok a => Ok (f a)
  | Raise e => Raise e
  end.

Definition raises {A} (m : result A) : Prop := exists e, m = Raise e.

(** ** DataFrames *)

Abbreviation Series := (list Qc).

Record DataFrame : Type := mkDataFrame {
  index : nat;                          (* number of rows, [len(df.index)] *)
  columns : list (string * Series)      (* columns in order *)
}.

Definition column_names (df : DataFrame) : list string := map fst (columns df).

Fixpoint lookup_col (name : string) (cols : list (string * Series)) : option Series :=
  match cols with
  | [] => None
  | (n, c) :: rest => if String.eqb n name then Some c else lookup_col name rest
  end.

(** [df[name]] *)
Definition getitem (df : DataFrame) (name : string) : result Series :=
  match lookup_col name (columns df) with
  | Some c => Ok c
  | None => Raise KeyError
  end.

(** The column store after [df[name] = vals]: an existing column is replaced
    where it stands, a new one is appended. *)
Fixpoint set_col (name : string) (vals : Series) (cols : list (string * Series))
  : list (string * Series) :=
  match cols with
  | [] => [(name, vals)]
  | (n, c) :: rest =>
      if String.eqb n name then (n, vals) :: rest
      else (n, c) :: set_col name vals rest
  end.

(** [df[name] = vals] for an array [vals]: pandas checks the length against the
    index and raises ValueError on a mismatch. *)
Definition setitem (df : DataFrame) (name : string) (vals : Series) : result DataFrame :=
  if Nat.eqb (length vals) (index df)
  then Ok {| index := index df; columns := set_col name vals (columns df) |}
  else Raise ValueError.

(** [df[name] = x] for a scalar [x]: the value is repeated along the index. *)
Definition setitem_scalar (df : DataFrame) (name : string) (x : Qc) : DataFrame :=
  {| index := index df; columns := set_col name (replicate (index df) x) (columns df) |}.

(** [pd.DataFrame(data, index=idx)] for a dict [data] of scalars. *)
Definition DataFrame_of_scalars (data : list (string * Qc)) (idx : nat) : DataFrame :=
  {| index := idx; columns := map (fun kv => (fst kv, replicate idx (snd kv))) data |}.

(** [pd.DataFrame(arr, columns=names)] for a two-dimensional array given by
    its rows: column [j] collects entry [j] of every row. *)
Definition DataFrame_of_rows (rows : list (list Qc)) (names : list string) : DataFrame :=
  {| index := length rows;
     columns := imap (fun j name => (name, map (fun r => nth j r 0%Qc) rows)) names |}.

(** [pd.concat(dfs).reset_index(drop=True)].  An empty list raises
    ValueError ("No objects to concatenate").  The frames handed over by
    [make_df_cost] all carry the same columns, so the result has the columns
    of the first frame, each the concatenation of the pieces; resetting the
    index renumbers the rows [0 .. n-1], which is what [index] counts. *)
Definition concat (dfs : list DataFrame) : result DataFrame :=
  match dfs with
  | [] => Raise ValueError
  | d :: _ =>
      Ok {| index := sum_list (map index dfs);
            columns :=
              map (fun name =>
                     (name, flat_map (fun df => default [] (lookup_col name (columns df))) dfs))
                  (column_names d) |}
  end.

(** Element-wise Series arithmetic (both operands come from one frame, so
    their indexes agree). *)
Definition series_mul (a b : Series) : Series := zip_with Qcmult a b.
Definition series_add (a b : Series) : Series := zip_with Qcplus a b.
Definition series_div_scalar (a : Series) (k : Qc) : Series := map (fun x => (x / k)%Qc) a.

(** ** Rows of a scenario table *)

Record Scenario : Type := mkScenario {
  employees : Qc;
  calls : Qc;
  avg_words_per_q : Qc;
  avg_words_per_a : Qc;
  tokens_per_word : Qc;
  m_tokens_sent : Qc;
  m_tokens_received : Qc
}.

(** [df.at[i, name]] *)
Definition cell (df : DataFrame) (name : string) (i : nat) : option Qc :=
  match lookup_col name (columns df) with
  | Some c => c !! i
  | None => None
  end.

Definition row_at (df : DataFrame) (i : nat) : option Scenario :=
  e ← cell df "employees" i;
  c ← cell df "calls" i;
  q ← cell df "avg_words_per_q" i;
  a ← cell df "avg_words_per_a" i;
  t ← cell df "tokens_per_word" i;
  s ← cell df "m_tokens_sent" i;
  r ← cell df "m_tokens_received" i;
  Some (mkScenario e c q a t s r).

(** All rows of the table, in index order; [None] when a row lacks one of the
    seven scenario columns. *)
Definition records (df : DataFrame) : option (list Scenario) :=
  mapM (row_at df) (seq 0 (index df)).

(** The five parameter values of a row. *)
Definition params (r : Scenario) : Qc * Qc * Qc * Qc * Qc :=
  (employees r, calls r, avg_words_per_q r, avg_words_per_a r, tokens_per_word r).

(** ** [src/cost_model.py] *)

Module CostModel.

(** The body of the innermost loop: the one-row frame for a combination. *)
Definition temp_df (employees call q a tokens_per_word : Qc) : DataFrame :=
  let data := [("employees", employees);
               ("calls", call);
               ("avg_words_per_q", q);
               ("avg_words_per_a", a);
               ("tokens_per_word", tokens_per_word)] in
  let temp_df := DataFrame_of_scalars data 1 in
  let temp_df := setitem_scalar temp_df "m_tokens_sent"
                   (((of_Z 800 * call) * q * tokens_per_word) / Qcpower (of_Z 10) 6)%Qc in
  let temp_df := setitem_scalar temp_df "m_tokens_received"
                   (((of_Z 800 * call) * a * tokens_per_word) / Qcpower (of_Z 10) 6)%Qc in
  temp_df.

(** The three nested [for] loops, appending to [df_list]. *)
Definition df_list (employees : Qc) (calls q_length a_length : list Qc)
    (tokens_per_word : Qc) : list DataFrame :=
  fold_left (fun df_list call =>
    fold_left (fun df_list q =>
      fold_left (fun df_list a =>
        df_list ++ [temp_df employees call q a tokens_per_word])
        a_length df_list)
      q_length df_list)
    calls [].

Definition make_df_cost (employees : Qc) (calls q_length a_length : list Qc)
    (tokens_per_word : Qc) : result DataFrame :=
  concat (df_list employees calls q_length a_length tokens_per_word).

End CostModel.

(** ** [src/functions/cost_model.py] *)

Module Functions.

(** An n-dimensional numpy array: its shape and its entry at a multi-index. *)
Record ndarray : Type := mk_ndarray {
  shape : list nat;
  item : list nat -> Qc
}.

(** All multi-indexes of a shape in C (row-major) order: the last axis runs
    fastest. *)
Fixpoint ndindex (shape : list nat) : list (list nat) :=
  match shape with
  | [] => [[]]
  | n :: rest => flat_map (fun i => map (cons i) (ndindex rest)) (seq 0 n)
  end.

(** [np.meshgrid(x0, x1, x2, x3, x4)] with the default [indexing='xy']: five
    grids of shape [(len x1, len x0, len x2, len x3, len x4)], the first two
    axes being swapped; grid [k] holds [xk] along its own axis. *)
Definition meshgrid (x0 x1 x2 x3 x4 : list Qc) : list ndarray :=
  let shp := [length x1; length x0; length x2; length x3; length x4] in
  [ mk_ndarray shp (fun ix => nth (nth 1 ix 0%nat) x0 0%Qc);
    mk_ndarray shp (fun ix => nth (nth 0 ix 0%nat) x1 0%Qc);
    mk_ndarray shp (fun ix => nth (nth 2 ix 0%nat) x2 0%Qc);
    mk_ndarray shp (fun ix => nth (nth 3 ix 0%nat) x3 0%Qc);
    mk_ndarray shp (fun ix => nth (nth 4 ix 0%nat) x4 0%Qc) ].

(** [np.array(grids)]: the grids stacked along a new leading axis. *)
Definition np_array (grids : list ndarray) : ndarray :=
  mk_ndarray
    (length grids :: match grids with g :: _ => shape g | [] => [] end)
    (fun ix =>
       match ix with
       | k :: rest => match grids !! k with Some g => item g rest | None => 0%Qc end
       | [] => 0%Qc
       end).

(** [a.T]: all axes reversed. *)
Definition T (a : ndarray) : ndarray :=
  mk_ndarray (rev (shape a)) (fun ix => item a (rev ix)).

(** The entries in C order. *)
Definition ravel (a : ndarray) : list Qc := map (item a) (ndindex (shape a)).

(** Consecutive pieces of [n] elements; [fuel] bounds the number of pieces. *)
Fixpoint chunks (fuel n : nat) (l : list Qc) : list (list Qc) :=
  match fuel with
  | O => []
  | S fuel' =>
      match l with
      | [] => []
      | _ :: _ => take n l :: chunks fuel' n (drop n l)
      end
  end.

(** [a.reshape(-1, n)]: the rows of the two-dimensional view; numpy raises
    ValueError when the size is not a multiple of [n]. *)
Definition reshape_rows (a : ndarray) (n : nat) : result (list (list Qc)) :=
  let flat := ravel a in
  if Nat.eqb (length flat mod n) 0
  then Ok (chunks (length flat) n flat)
  else Raise ValueError.

Definition make_df_cost (employees calls q_length a_length tokens_per_word : list Qc)
  : result DataFrame :=
  let mesh := np_array (meshgrid employees calls q_length a_length tokens_per_word) in
  combinations ← reshape_rows (T mesh) 5;
  let df := DataFrame_of_rows combinations
              ["employees"; "calls"; "avg_words_per_q"; "avg_words_per_a"; "tokens_per_word"] in
  e ← getitem df "employees";
  c ← getitem df "calls";
  q ← getitem df "avg_words_per_q";
  t ← getitem df "tokens_per_word";
  df ← setitem df "m_tokens_sent"
         (series_div_scalar (series_mul (series_mul (series_mul e c) q) t) (of_Z 1000000));
  e ← getitem df "employees";
  c ← getitem df "calls";
  a ← getitem df "avg_words_per_a";
  t ← getitem df "tokens_per_word";
  df ← setitem df "m_tokens_received"
         (series_div_scalar (series_mul (series_mul (series_mul e c) a) t) (of_Z 1000000));
  mret df.

End Functions.

(** ** [calculate_total_cost] (the same body in both files) *)

(** The pricing table [df_llms]: the identifier column ['modell'] and the
    numeric rate columns. *)
Record PricingFrame : Type := mkPricingFrame {
  modell : list string;
  price_columns : list (string * Series)
}.

(** [df_llms['modell'] == model] *)
Definition model_mask (df_llms : PricingFrame) (model : string) : list bool :=
  map (fun m => String.eqb m model) (modell df_llms).

(** The entries of a column at the positions where the mask is [True]. *)
Fixpoint select (mask : list bool) (c : Series) : Series :=
  match mask, c with
  | b :: mask', x :: c' => if b then x :: select mask' c' else select mask' c'
  | _, _ => []
  end.

(** [np.array(df_llms.loc[mask, col])] *)
Definition loc (df_llms : PricingFrame) (mask : list bool) (col : string) : result Series :=
  match lookup_col col (price_columns df_llms) with
  | Some c => Ok (select mask c)
  | None => Raise KeyError
  end.

(** [a * b] on one-dimensional numpy arrays: equal lengths multiply
    element-wise, a length-one operand is broadcast, any other pair of shapes
    raises ValueError. *)
Definition np_mul (a b : Series) : result Series :=
  if Nat.eqb (length a) (length b) then Ok (zip_with Qcmult a b)
  else match b with
       | [y] => Ok (map (fun x => (x * y)%Qc) a)
       | _ => match a with
              | [x] => Ok (map (fun y => (x * y)%Qc) b)
              | _ => Raise ValueError
              end
       end.

Definition question_col (model : string) : string := "Question cost " ++ model ++ " (USD)".
Definition answer_col (model : string) : string := "Answer cost " ++ model ++ " (USD)".
Definition total_col (model : string) : string := "Total cost " ++ model ++ " (USD)".

(** One iteration of [for model in models], on the local table [df_costs]. *)
Definition cost_columns (df_llms : PricingFrame) (cost_sent cost_rec : string)
    (tokens_sent_col tokens_received_col : string)
    (df_costs : DataFrame) (model : string) : result DataFrame :=
  sent ← getitem df_costs tokens_sent_col;
  rate ← loc df_llms (model_mask df_llms model) cost_sent;
  question ← np_mul sent rate;
  df_costs ← setitem df_costs (question_col model) question;
  received ← getitem df_costs tokens_received_col;
  rate ← loc df_llms (model_mask df_llms model) cost_rec;
  answer ← np_mul received rate;
  df_costs ← setitem df_costs (answer_col model) answer;
  question ← getitem df_costs (question_col model);
  answer ← getitem df_costs (answer_col model);
  setitem df_costs (total_col model) (series_add question answer).

Fixpoint for_each {A S : Type} (body : S -> A -> result S) (xs : list A) (s : S) : result S :=
  match xs with
  | [] => Ok s
  | x :: rest => s' ← body s x; for_each body rest s'
  end.

(** The function on table values: the local [df_costs] starts as the copy of
    the argument and is threaded through the loop. *)
Definition calculate_total_cost (df_costs : DataFrame) (df_llms : PricingFrame)
    (models : list string) (cost_sent cost_rec : string)
    (tokens_sent_col tokens_received_col : string) : result DataFrame :=
  for_each (cost_columns df_llms cost_sent cost_rec tokens_sent_col tokens_received_col)
           models df_costs.

Definition default_sent_col : string := "m_tokens_sent".
Definition default_received_col : string := "m_tokens_received".

(** ** [calculate_total_cost] on an object store

    Python passes tables by reference.  Here the caller's tables live in a
    store, the function receives their addresses, [.copy()] allocates a new
    object and [df[name] = vals] updates the addressed object in place. *)

Module Store.

Inductive object : Type :=
| Table (d : DataFrame)
| Pricing (p : PricingFrame).

Abbreviation ref := nat.
Abbreviation heap := (list object).

(** Computations that read and update the store and may raise; the store
    reached so far is kept when an exception is raised. *)
Definition M (A : Type) : Type := heap -> result A * heap.

#[global] Instance M_ret : MRet M := fun A a h => (Ok a, h).

#[global] Instance M_bind : MBind M := fun A B k m h =>
  match m h with
  | (Ok a, h') => k a h'
  | (Raise e, h') => (Raise e, h')
  end.

Definition lift {A} (r : result A) : M A := fun h => (r, h).

Definition alloc (o : object) : M ref := fun h => (Ok (length h), h ++ [o]).

Definition read_table (r : ref) : M DataFrame := fun h =>
  match h !! r with
  | Some (Table d) => (Ok d, h)
  | _ => (Raise TypeError, h)
  end.

Definition read_pricing (r : ref) : M PricingFrame := fun h =>
  match h !! r with
  | Some (Pricing p) => (Ok p, h)
  | _ => (Raise TypeError, h)
  end.

Definition write_table (r : ref) (d : DataFrame) : M unit := fun h =>
  (Ok tt, <[r := Table d]> h).

(** [df.copy()] *)
Definition copy_table (r : ref) : M ref := d ← read_table r; alloc (Table d).
Definition copy_pricing (r : ref) : M ref := p ← read_pricing r; alloc (Pricing p).

(** [df[name]] *)
Definition getitem (r : ref) (name : string) : M Series :=
  d ← read_table r; lift (getitem d name).

(** [df[name] = vals], in place *)
Definition setitem (r : ref) (name : string) (vals : Series) : M unit :=
  d ← read_table r; d' ← lift (setitem d name vals); write_table r d'.

(** [np.array(df_llms.loc[df_llms['modell'] == model, col])] *)
Definition loc (r : ref) (model col : string) : M Series :=
  p ← read_pricing r; lift (loc p (model_mask p model) col).

Definition cost_columns (df_llms : ref) (cost_sent cost_rec : string)
    (tokens_sent_col tokens_received_col : string)
    (df_costs : ref) (model : string) : M unit :=
  sent ← getitem df_costs tokens_sent_col;
  rate ← loc df_llms model cost_sent;
  question ← lift (np_mul sent rate);
  _ ← setitem df_costs (question_col model) question;
  received ← getitem df_costs tokens_received_col;
  rate ← loc df_llms model cost_rec;
  answer ← lift (np_mul received rate);
  _ ← setitem df_costs (answer_col model) answer;
  question ← getitem df_costs (question_col model);
  answer ← getitem df_costs (answer_col model);
  setitem df_costs (total_col model) (series_add question answer).

Fixpoint for_each {A : Type} (body : A -> M unit) (xs : list A) : M unit :=
  match xs with
  | [] => mret tt
  | x :: rest => _ ← body x; for_each body rest
  end.

Definition calculate_total_cost (df_costs df_llms : ref) (models : list string)
    (cost_sent cost_rec : string) (tokens_sent_col tokens_received_col : string) : M ref :=
  df_costs ← copy_table df_costs;
  df_llms ← copy_pricing df_llms;
  _ ← for_each (cost_columns df_llms cost_sent cost_rec
                  tokens_sent_col tokens_received_col df_costs) models;
  mret df_costs.

End Store.

(** ** Row-level descriptions used in the statements *)

(** The table with rows [rs]: the seven scenario columns in the order both
    variants produce them. *)
Definition table_of (rs : list Scenario) : DataFrame :=
  {| index := length rs;
     columns := [("employees", map employees rs);
                 ("calls", map calls rs);
                 ("avg_words_per_q", map avg_words_per_q rs);
                 ("avg_words_per_a", map avg_words_per_a rs);
                 ("tokens_per_word", map tokens_per_word rs);
                 ("m_tokens_sent", map m_tokens_sent rs);
                 ("m_tokens_received", map m_tokens_received rs)] |}.

(** The row held by [CostModel.temp_df]. *)
Definition loop_row (e t c q a : Qc) : Scenario :=
  mkScenario e c q a t
    (((of_Z 800 * c) * q * t) / Qcpower (of_Z 10) 6)%Qc
    (((of_Z 800 * c) * a * t) / Qcpower (of_Z 10) 6)%Qc.

(** The rows of the loop variant, in loop order. *)
Definition loop_rows (e : Qc) (cs qs as_ : list Qc) (t : Qc) : list Scenario :=
  flat_map (fun c => flat_map (fun q => map (fun a => loop_row e t c q a) as_) qs) cs.

(** A row of the meshgrid variant. *)
Definition grid_row (e c q a t : Qc) : Scenario :=
  mkScenario e c q a t
    (((e * c) * q * t) / of_Z 1000000)%Qc
    (((e * c) * a * t) / of_Z 1000000)%Qc.

(** The rows of the meshgrid variant: [tokens_per_word] varies slowest and
    [calls] fastest. *)
Definition grid_rows (es cs qs as_ ts : list Qc) : list Scenario :=
  flat_map (fun t =>
    flat_map (fun a =>
      flat_map (fun q =>
        flat_map (fun e =>
          map (fun c => grid_row e c q a t) cs) es) qs) as_) ts.

(** The cartesian product of the five input collections. *)
Definition product (es cs qs as_ ts : list Qc) : list (Qc * Qc * Qc * Qc * Qc) :=
  flat_map (fun e =>
    flat_map (fun c =>
      flat_map (fun q =>
        flat_map (fun a =>
          map (fun t => (e, c, q, a, t)) ts) as_) qs) cs) es.

(** A row whose derived fields follow the formula of the meshgrid variant. *)
Definition is_grid_row (r : Scenario) : Prop :=
  r = grid_row (employees r) (calls r) (avg_words_per_q r) (avg_words_per_a r)
        (tokens_per_word r).

(** The cross relation between the two derived fields of a row. *)
Definition cross_relation (r : Scenario) : Prop :=
  (m_tokens_sent r * avg_words_per_a r = m_tokens_received r * avg_words_per_q r)%Qc.

(** Row [i] is the only row of [rs] that carries the parameter tuple [p]. *)
Definition exactly_one_row (rs : list Scenario) (p : Qc * Qc * Qc * Qc * Qc) : Prop :=
  exists i r, rs !! i = Some r /\ params r = p /\
    forall j r', rs !! j = Some r' -> params r' = p -> j = i.

(** [df] lists the cartesian product of the inputs: it has one row for every
    position of the grid, every tuple of the product is carried by exactly
    one row, and every row carries a tuple of the product. *)
Definition cartesian_table (df : DataFrame) (es cs qs as_ ts : list Qc) : Prop :=
  exists rs,
    records df = Some rs /\
    index df = length es * length cs * length qs * length as_ * length ts /\
    length rs = index df /\
    (forall p, p ∈ product es cs qs as_ ts -> exactly_one_row rs p) /\
    (forall r, r ∈ rs -> params r ∈ product es cs qs as_ ts).

(** The derived fields of a row as the specification computes them, from the
    row's own five parameters. *)
Definition tokens_from_parameters (r : Scenario) : Prop :=
  m_tokens_sent r =
    (employees r * calls r * avg_words_per_q r * tokens_per_word r / of_Z 1000000)%Qc /\
  m_tokens_received r =
    (employees r * calls r * avg_words_per_a r * tokens_per_word r / of_Z 1000000)%Qc.

(** The derived fields as the loop variant computes them. *)
Definition tokens_from_800 (r : Scenario) : Prop :=
  m_tokens_sent r =
    (of_Z 800 * calls r * avg_words_per_q r * tokens_per_word r / of_Z 1000000)%Qc /\
  m_tokens_received r =
    (of_Z 800 * calls r * avg_words_per_a r * tokens_per_word r / of_Z 1000000)%Qc.

(** Every column is as long as the index. *)
Definition wf (df : DataFrame) : Prop :=
  Forall (fun c => length (snd c) = index df) (columns df).

Definition wf_pricing (p : PricingFrame) : Prop :=
  Forall (fun c => length (snd c) = length (modell p)) (price_columns p).

(** Number of pricing entries whose identifier is [model]. *)
Definition entries (df_llms : PricingFrame) (model : string) : nat :=
  length (filter (fun m => m = model) (modell df_llms)).

(** The rate of [model] in column [col] (its first matching entry). *)
Definition rate (df_llms : PricingFrame) (model col : string) : Qc :=
  match lookup_col col (price_columns df_llms) with
  | Some c => hd 0%Qc (select (model_mask df_llms model) c)
  | None => 0%Qc
  end.

(** The column names after assigning to [name]. *)
Definition add_name (names : list string) (name : string) : list string :=
  if decide (name ∈ names) then names else names ++ [name].

Definition cost_names (models : list string) : list string :=
  flat_map (fun m => [question_col m; answer_col m; total_col m]) models.

Definition scale (k : Qc) (s : Series) : Series := map (fun x => (x * k)%Qc) s.

(** The three cost columns of [model] in [out] hold the costs computed from
    the token columns [sent] and [received] and the model's two rates. *)
Definition has_costs (out : DataFrame) (df_llms : PricingFrame)
    (cost_sent cost_rec : string) (sent received : Series) (model : string) : Prop :=
  let question := scale (rate df_llms model cost_sent) sent in
  let answer := scale (rate df_llms model cost_rec) received in
  lookup_col (question_col model) (columns out) = Some question /\
  lookup_col (answer_col model) (columns out) = Some answer /\
  lookup_col (total_col model) (columns out) = Some (series_add question answer).

(** The computation [m] leaves the first [n] objects of the store as they
    are. *)
Definition preserves {A} (n : nat) (m : Store.M A) : Prop :=
  forall h, n <= length h -> take n (m h).2 = take n h /\ n <= length (m h).2.

(** The content computed for the cost column [name] of [model]. *)
Definition cost_column (df_llms : PricingFrame) (cost_sent cost_rec : string)
    (sent received : Series) (model name : string) : Series :=
  let question := scale (rate df_llms model cost_sent) sent in
  let answer := scale (rate df_llms model cost_rec) received in
  if decide (name = question_col model) then question
  else if decide (name = answer_col model) then answer
  else series_add question answer.

(** The tables of the worked example: one scenario row with 2.66 and 5.32
    million tokens, and model A priced at 0.01 and 0.015. *)
Definition example_costs : DataFrame :=
  {| index := 1;
     columns := [("m_tokens_sent", [decimal 266 100]);
                 ("m_tokens_received", [decimal 532 100])] |}.

Definition example_llms : PricingFrame :=
  {| modell := ["A"];
     price_columns := [("cost_sent", [decimal 1 100]); ("cost_rec", [decimal 15 1000])] |}.

(** Two scenario rows against a pricing table that lists model A twice. *)
Definition two_rows : DataFrame :=
  {| index := 2;
     columns := [("m_tokens_sent", [of_Z 1; of_Z 2]);
                 ("m_tokens_received", [of_Z 3; of_Z 4])] |}.

Definition duplicated_llms : PricingFrame :=
  {| modell := ["A"; "A"];
     price_columns := [("cost_sent", [of_Z 10; of_Z 20]); ("cost_rec", [of_Z 30; of_Z 40])] |}.

(** A scenario table without rows. *)
Definition no_rows : DataFrame :=
  {| index := 0; columns := [("m_tokens_sent", []); ("m_tokens_received", [])] |}.

(** The example table with a column that already has the name of a cost
    column. *)
Definition colliding_costs : DataFrame :=
  {| index := 1;
     columns := [("m_tokens_sent", [decimal 266 100]);
                 ("Total cost A (USD)", [of_Z 999]);
                 ("m_tokens_received", [decimal 532 100])] |}.

(** ** Descriptions used in the further properties *)

(** The columns of a scenario table, in order. *)
Definition scenario_columns : list string :=
  ["employees"; "calls"; "avg_words_per_q"; "avg_words_per_a"; "tokens_per_word";
   "m_tokens_sent"; "m_tokens_received"].

(** A row with another [employees] value and everything else as it was. *)
Definition with_employees (e : Qc) (r : Scenario) : Scenario :=
  mkScenario e (calls r) (avg_words_per_q r) (avg_words_per_a r)
    (tokens_per_word r) (m_tokens_sent r) (m_tokens_received r).

(** A pricing table with one entry for each of the models A and B. *)
Definition two_models_llms : PricingFrame :=
  {| modell := ["A"; "B"];
     price_columns := [("cost_sent", [decimal 1 100; decimal 2 100]);
                       ("cost_rec", [decimal 15 1000; decimal 25 1000])] |}.

(** Row [i] of [out] holds, for [model], the costs of the scenario row [r]. *)
Definition row_costs (out : DataFrame) (df_llms : PricingFrame)
    (cost_sent cost_rec : string) (model : string) (i : nat) (r : Scenario) : Prop :=
  cell out (question_col model) i
    = Some (m_tokens_sent r * rate df_llms model cost_sent)%Qc /\
  cell out (answer_col model) i
    = Some (m_tokens_received r * rate df_llms model cost_rec)%Qc /\
  cell out (total_col model) i
    = Some (m_tokens_sent r * rate df_llms model cost_sent
            + m_tokens_received r * rate df_llms model cost_rec)%Qc.

(** Two tables with the same number of rows and the same content under every
    column name (the order of the columns may differ). *)
Definition same_contents (d d' : DataFrame) : Prop :=
  index d = index d' /\
  forall name, lookup_col name (columns d) = lookup_col name (columns d').

(** In [out] the total cost column of [model] is the sum of its question and
    answer cost columns. *)
Definition total_is_sum (out : DataFrame) (model : string) : Prop :=
  exists question answer,
    lookup_col (question_col model) (columns out) = Some question /\
    lookup_col (answer_col model) (columns out) = Some answer /\
    lookup_col (total_col model) (columns out) = Some (series_add question answer).

(** ** Machine numbers

    What the interpreter computes with: Python ints of any size, numpy
    [int64] with wrap-around, and binary64 floats with every operation
    rounded to nearest, ties to even (the Standard Library's [spec_float] at
    precision 53). *)

Module Machine.

Abbreviation float := spec_float.

Definition prec : Z := 53.
Definition emax : Z := 1024.

Definition mul (x y : float) : float := SFmul prec emax x y.
Definition add (x y : float) : float := SFadd prec emax x y.
Definition div (x y : float) : float := SFdiv prec emax x y.

Definition is_finite (x : float) : bool :=
  match x with
  | S754_zero _ | S754_finite _ _ _ => true
  | S754_infinity _ | S754_nan => false
  end.

(** An integer as an unrounded significand with exponent 0. *)
Definition exact (z : Z) : float :=
  match z with
  | Z0 => S754_zero false
  | Zpos p => S754_finite false p 0
  | Zneg p => S754_finite true p 0
  end.

(** [float(z)] and numpy's conversion of an [int64] to [float64]: the nearest
    binary64, infinite beyond the range. *)
Definition of_int (z : Z) : float := binary_normalize prec emax z 0 false.

(** The binary64 that a decimal literal such as [1.33] denotes: the fraction
    [133/100] rounded once. *)
Definition decimal (n : Z) (d : positive) : float := div (exact n) (exact (Zpos d)).

(** A Python number. *)
Inductive number : Type :=
| Int (z : Z)
| Float (x : float).

(** The conversion of an int operand to float in mixed arithmetic: Python
    raises OverflowError when the int is beyond the float range. *)
Definition to_float (z : Z) : result float :=
  let x := of_int z in
  if is_finite x then Ok x else Raise OverflowError.

(** [a * b]: ints multiply exactly; with a float operand the product is a
    binary64, which overflows to infinity without an error. *)
Definition py_mul (a b : number) : result number :=
  match a, b with
  | Int x, Int y => Ok (Int (x * y))
  | Int x, Float y => x' ← to_float x; Ok (Float (mul x' y))
  | Float x, Int y => y' ← to_float y; Ok (Float (mul x y'))
  | Float x, Float y => Ok (Float (mul x y))
  end.

(** [a / k] for a positive int [k]: int by int is the quotient rounded once
    (OverflowError beyond the float range), float by int divides by
    [float(k)]. *)
Definition py_truediv (a : number) (k : positive) : result float :=
  match a with
  | Int x =>
      let q := div (exact x) (exact (Zpos k)) in
      if is_finite q then Ok q else Raise OverflowError
  | Float x => k' ← to_float (Zpos k); Ok (div x k')
  end.

(** Lines 79 and 80 of [src/cost_model.py]:
    [((800 * call) * words * tokens_per_word) / 10**6]. *)
Definition loop_tokens (call words tokens_per_word : number) : result float :=
  x ← py_mul (Int 800) call;
  x ← py_mul x words;
  x ← py_mul x tokens_per_word;
  py_truediv x (10 ^ 6)%positive.

(** numpy [int64]: the representative of [z] modulo [2^64] in
    [-2^63 .. 2^63 - 1]. *)
Definition wrap (z : Z) : Z := ((z + 2 ^ 63) mod 2 ^ 64 - 2 ^ 63)%Z.

(** The values of one row of the meshgrid variant that enter a derived
    field.  [mesh] has one dtype, hence so has every column: [int64] when all
    five input arrays hold ints (the entries are then within the [int64]
    range), [float64] otherwise (an integer input [z] is then held as
    [of_int z]). *)
Inductive row : Type :=
| Int64 (employees calls words tokens_per_word : Z)
| Float64 (employees calls words tokens_per_word : float).

(** Lines 61 and 62 of [src/functions/cost_model.py], at one row:
    [((employees * calls) * words * tokens_per_word) / 1e6]. *)
Definition grid_tokens (r : row) : float :=
  match r with
  | Int64 e c w t =>
      div (of_int (wrap (wrap (wrap (e * c) * w) * t))) (of_int 1000000)
  | Float64 e c w t =>
      div (mul (mul (mul e c) w) t) (of_int 1000000)
  end.

(** [a * b] on one-dimensional [float64] arrays, as [np_mul] above. *)
Definition np_mul (a b : list float) : result (list float) :=
  if Nat.eqb (length a) (length b) then Ok (zip_with mul a b)
  else match b with
       | [y] => Ok (map (fun x => mul x y) a)
       | _ => match a with
              | [x] => Ok (map (fun y => mul x y) b)
              | _ => Raise ValueError
              end
       end.

(** [df[name] = vals]: the length is checked against the index. *)
Definition assign (index : nat) (vals : list float) : result (list float) :=
  if Nat.eqb (length vals) index then Ok vals else Raise ValueError.

(** The three columns computed in one iteration of [for model in models],
    from the two token columns of the table and the selected rates. *)
Definition costs (sent received rate_sent rate_rec : list float)
  : result (list float * list float * list float) :=
  question ← np_mul sent rate_sent;
  question ← assign (length sent) question;
  answer ← np_mul received rate_rec;
  answer ← assign (length received) answer;
  Ok (question, answer, zip_with add question answer).

End Machine.

(** ** Strings *)

Lemma string_length_append (a b : string) :
  String.length (a ++ b) = String.length a + String.length b.
Proof. induction a as [|c a IH]; simpl; [done | by rewrite IH]. Qed.

Lemma append_inj_r (a b s : string) : (a ++ s = b ++ s)%string -> a = b.
Proof.
  revert b. induction a as [|c a IH]; intros [|d b] H; cbn [String.append] in H.
  - done.
  - apply (f_equal String.length) in H.
    change (String.length s = S (String.length (b ++ s)%string)) in H.
    rewrite string_length_append in H. lia.
  - apply (f_equal String.length) in H.
    change (S (String.length (a ++ s)%string) = String.length s) in H.
    rewrite string_length_append in H. lia.
  - injection H as -> H. f_equal. by apply IH.
Qed.

Lemma question_col_inj m m' : question_col m = question_col m' -> m = m'.
Proof. unfold question_col. simpl. intros H. simplify_eq. by eapply append_inj_r. Qed.

Lemma answer_col_inj m m' : answer_col m = answer_col m' -> m = m'.
Proof. unfold answer_col. simpl. intros H. simplify_eq. by eapply append_inj_r. Qed.

Lemma total_col_inj m m' : total_col m = total_col m' -> m = m'.
Proof. unfold total_col. simpl. intros H. simplify_eq. by eapply append_inj_r. Qed.

Lemma question_answer_ne m m' : question_col m <> answer_col m'.
Proof. unfold question_col, answer_col. simpl. discriminate. Qed.

Lemma question_total_ne m m' : question_col m <> total_col m'.
Proof. unfold question_col, total_col. simpl. discriminate. Qed.

Lemma answer_total_ne m m' : answer_col m <> total_col m'.
Proof. unfold answer_col, total_col. simpl. discriminate. Qed.

(** ** Columns *)

Lemma lookup_col_set_col_eq name v cols :
  lookup_col name (set_col name v cols) = Some v.
Proof.
  induction cols as [|[n c] cols IH]; simpl.
  - by rewrite String.eqb_refl.
  - destruct (String.eqb n name) eqn:E; simpl; by rewrite E.
Qed.

Lemma lookup_col_set_col_ne name name' v cols :
  name <> name' -> lookup_col name' (set_col name v cols) = lookup_col name' cols.
Proof.
  intros Hne. induction cols as [|[n c] cols IH]; simpl.
  - destruct (String.eqb name name') eqn:E; [|done].
    apply String.eqb_eq in E. done.
  - destruct (String.eqb n name) eqn:E; simpl.
    + apply String.eqb_eq in E. subst n.
      destruct (String.eqb name name') eqn:E'; [|done].
      apply String.eqb_eq in E'. done.
    + by rewrite IH.
Qed.

Lemma lookup_col_set_col name name' v cols :
  lookup_col name' (set_col name v cols) =
  if decide (name = name') then Some v else lookup_col name' cols.
Proof.
  case_decide as E.
  - subst. apply lookup_col_set_col_eq.
  - by apply lookup_col_set_col_ne.
Qed.

Lemma add_name_in names name : name ∈ names -> add_name names name = names.
Proof. intros H. unfold add_name. by rewrite decide_True. Qed.

Lemma add_name_notin names name : name ∉ names -> add_name names name = names ++ [name].
Proof. intros H. unfold add_name. by rewrite decide_False. Qed.

Lemma set_col_names name v cols :
  map fst (set_col name v cols) = add_name (map fst cols) name.
Proof.
  induction cols as [|[n c] cols IH].
  - rewrite add_name_notin; [done | apply not_elem_of_nil].
  - cbn [set_col]. destruct (String.eqb n name) eqn:E.
    + apply String.eqb_eq in E. subst.
      rewrite add_name_in; [done | apply list_elem_of_here].
    + apply String.eqb_neq in E. cbn [map fst]. rewrite IH.
      destruct (decide (name ∈ map fst cols)) as [Hin|Hin].
      * rewrite !add_name_in; [done | by apply list_elem_of_further | done].
      * rewrite !add_name_notin; [done | | done].
        apply not_elem_of_cons. split; [congruence | done].
Qed.

Lemma lookup_col_length df name c :
  wf df -> lookup_col name (columns df) = Some c -> length c = index df.
Proof.
  unfold wf. generalize (index df) as n. intros n Hwf.
  induction Hwf as [|[n' c'] cols Hc Hwf IH]; simpl; [done|].
  destruct (String.eqb n' name); [|done]. intros [= <-]. done.
Qed.

Lemma set_col_wf n name v cols :
  length v = n ->
  Forall (fun c : string * Series => length (snd c) = n) cols ->
  Forall (fun c : string * Series => length (snd c) = n) (set_col name v cols).
Proof.
  intros Hv Hwf. induction Hwf as [|[n' c'] cols Hc Hwf IH]; simpl.
  - by constructor.
  - destruct (String.eqb n' name); constructor; done.
Qed.

Lemma setitem_Ok df name v :
  length v = index df ->
  setitem df name v = Ok {| index := index df; columns := set_col name v (columns df) |}.
Proof. intros H. unfold setitem. by rewrite H, Nat.eqb_refl. Qed.

Lemma setitem_inv df name v df' :
  setitem df name v = Ok df' ->
  length v = index df /\ index df' = index df /\ columns df' = set_col name v (columns df).
Proof.
  unfold setitem. destruct (Nat.eqb (length v) (index df)) eqn:E; [|done].
  apply Nat.eqb_eq in E. intros [= <-]. done.
Qed.

Lemma setitem_raises df name v :
  length v <> index df -> setitem df name v = Raise ValueError.
Proof.
  intros H. unfold setitem. apply Nat.eqb_neq in H. by rewrite H.
Qed.

Lemma setitem_wf df name v df' : wf df -> setitem df name v = Ok df' -> wf df'.
Proof.
  intros Hwf H. apply setitem_inv in H as (Hv & Hi & Hc).
  unfold wf. rewrite Hc, Hi. by apply set_col_wf.
Qed.

(** ** Tables given by their rows *)

Lemma wf_table_of rs : wf (table_of rs).
Proof. unfold wf, table_of. simpl. repeat constructor; simpl; apply length_map. Qed.

Lemma lookup_map {A B} (f : A -> B) (l : list A) (i : nat) :
  map f l !! i = f <$> l !! i.
Proof. revert i. induction l as [|x l IH]; intros [|i]; simpl; auto. Qed.

Lemma row_at_table_of rs i : row_at (table_of rs) i = rs !! i.
Proof.
  unfold row_at, cell, table_of. simpl.
  rewrite !lookup_map. destruct (rs !! i) as [[]|]; reflexivity.
Qed.

Lemma mapM_lookup_seq {A} (rs : list A) (f : nat -> option A) :
  (forall i, i < length rs -> f i = rs !! i) ->
  mapM f (seq 0 (length rs)) = Some rs.
Proof.
  intros Hf. apply mapM_Some. apply Forall2_same_length_lookup. split.
  - by rewrite length_seq.
  - intros i x y Hx Hy. apply lookup_seq in Hx as [-> Hlt]. simpl. by rewrite Hf.
Qed.

Lemma records_table_of rs : records (table_of rs) = Some rs.
Proof.
  unfold records. change (index (table_of rs)) with (length rs).
  apply mapM_lookup_seq. intros i _. apply row_at_table_of.
Qed.

Lemma column_names_table_of rs :
  column_names (table_of rs) =
  ["employees"; "calls"; "avg_words_per_q"; "avg_words_per_a"; "tokens_per_word";
   "m_tokens_sent"; "m_tokens_received"].
Proof. reflexivity. Qed.

(** ** The loop variant builds the table of [loop_rows] *)

Lemma temp_df_table e t c q a :
  CostModel.temp_df e c q a t = table_of [loop_row e t c q a].
Proof. reflexivity. Qed.

Lemma fold_left_append {A B} (f : A -> list B) (xs : list A) (acc : list B) :
  fold_left (fun acc x => acc ++ f x) xs acc = acc ++ flat_map f xs.
Proof.
  revert acc. induction xs as [|x xs IH]; intros acc; simpl.
  - by rewrite app_nil_r.
  - rewrite IH. by rewrite <- app_assoc.
Qed.

Lemma fold_left_ext_acc {A B} (f g : B -> A -> B) (xs : list A) (acc : B) :
  (forall b x, f b x = g b x) -> fold_left f xs acc = fold_left g xs acc.
Proof.
  intros H. revert acc. induction xs as [|x xs IH]; intros acc; simpl; [done|].
  by rewrite H, IH.
Qed.

Lemma df_list_rows e cs qs as_ t :
  CostModel.df_list e cs qs as_ t = map (fun r => table_of [r]) (loop_rows e cs qs as_ t).
Proof.
  unfold CostModel.df_list, loop_rows.
  rewrite (fold_left_ext_acc _
    (fun acc c => acc ++ flat_map (fun q => map (fun a => CostModel.temp_df e c q a t) as_) qs)).
  - rewrite fold_left_append. simpl.
    induction cs as [|c cs IH]; simpl; [done|].
    rewrite map_app, IH. f_equal.
    clear IH. induction qs as [|q qs IH]; simpl; [done|].
    rewrite map_app, IH. f_equal. by rewrite List.map_map.
  - intros acc c.
    rewrite (fold_left_ext_acc _
      (fun acc q => acc ++ map (fun a => CostModel.temp_df e c q a t) as_)).
    + apply fold_left_append.
    + intros acc' q. rewrite fold_left_append.
      by f_equal.
Qed.

Lemma concat_column name (proj : Scenario -> Qc) rs :
  (forall r, lookup_col name (columns (table_of [r])) = Some [proj r]) ->
  flat_map (fun df => default [] (lookup_col name (columns df)))
           (map (fun r => table_of [r]) rs) = map proj rs.
Proof.
  intros H. induction rs as [|r rs IH]; [done|].
  cbn [map flat_map]. rewrite H, IH. done.
Qed.

Lemma sum_list_index_rows rs :
  sum_list (map index (map (fun r => table_of [r]) rs)) = length rs.
Proof. induction rs as [|r rs IH]; simpl; [done | by rewrite IH]. Qed.

Lemma concat_tables rs :
  rs <> [] -> concat (map (fun r => table_of [r]) rs) = Ok (table_of rs).
Proof.
  destruct rs as [|r rs]; [done|]. intros _.
  change (map (fun r => table_of [r]) (r :: rs))
    with (table_of [r] :: map (fun r => table_of [r]) rs).
  unfold concat.
  change (table_of [r] :: map (fun r => table_of [r]) rs)
    with (map (fun r => table_of [r]) (r :: rs)).
  rewrite sum_list_index_rows, column_names_table_of.
  set (dfs := map (fun r => table_of [r]) (r :: rs)). cbn [map]. subst dfs.
  rewrite (concat_column "employees" employees) by done.
  rewrite (concat_column "calls" calls) by done.
  rewrite (concat_column "avg_words_per_q" avg_words_per_q) by done.
  rewrite (concat_column "avg_words_per_a" avg_words_per_a) by done.
  rewrite (concat_column "tokens_per_word" tokens_per_word) by done.
  rewrite (concat_column "m_tokens_sent" m_tokens_sent) by done.
  rewrite (concat_column "m_tokens_received" m_tokens_received) by done.
  reflexivity.
Qed.

Lemma make_df_cost_loop e cs qs as_ t :
  CostModel.make_df_cost e cs qs as_ t =
  match loop_rows e cs qs as_ t with
  | [] => Raise ValueError
  | _ :: _ => Ok (table_of (loop_rows e cs qs as_ t))
  end.
Proof.
  unfold CostModel.make_df_cost. rewrite df_list_rows.
  destruct (loop_rows e cs qs as_ t) as [|r rs] eqn:E; [done|].
  by apply concat_tables.
Qed.

(** ** The meshgrid variant builds the table of [grid_rows] *)

Lemma map_flat_map {A B C} (f : B -> C) (g : A -> list B) (l : list A) :
  map f (flat_map g l) = flat_map (fun x => map f (g x)) l.
Proof. induction l as [|x l IH]; simpl; [done | by rewrite map_app, IH]. Qed.

Lemma map_nth_seq (x : list Qc) :
  map (fun i => nth i x 0%Qc) (seq 0 (length x)) = x.
Proof.
  induction x as [|y x IH]; [done|].
  cbn [length]. rewrite <- cons_seq, <- seq_shift. cbn [map]. cbn [nth].
  by rewrite List.map_map, IH.
Qed.

Lemma flat_map_map {A B C} (f : A -> B) (g : B -> list C) (l : list A) :
  flat_map g (map f l) = flat_map (fun x => g (f x)) l.
Proof. induction l as [|x l IH]; simpl; [done | by rewrite IH]. Qed.

Lemma flat_map_nth_seq {B} (x : list Qc) (G : Qc -> list B) :
  flat_map (fun i => G (nth i x 0%Qc)) (seq 0 (length x)) = flat_map G x.
Proof.
  transitivity (flat_map G (map (fun i => nth i x 0%Qc) (seq 0 (length x)))).
  - by rewrite flat_map_map.
  - by rewrite map_nth_seq.
Qed.

Lemma map_fun_nth_seq {B} (x : list Qc) (g : Qc -> B) :
  map (fun i => g (nth i x 0%Qc)) (seq 0 (length x)) = map g x.
Proof.
  transitivity (map g (map (fun i => nth i x 0%Qc) (seq 0 (length x)))).
  - by rewrite List.map_map.
  - by rewrite map_nth_seq.
Qed.

Lemma ndindex_snoc (s : list nat) (n : nat) :
  Functions.ndindex (s ++ [n]) =
  flat_map (fun ix => map (fun k => ix ++ [k]) (seq 0 n)) (Functions.ndindex s).
Proof.
  induction s as [|m s IH]; simpl.
  - rewrite app_nil_r. induction (seq 0 n) as [|k l IHl]; simpl; [done | by rewrite IHl].
  - rewrite IH. induction (seq 0 m) as [|i l IHl]; simpl; [done|].
    rewrite flat_map_app, IHl. f_equal.
    rewrite map_flat_map, flat_map_map.
    apply flat_map_ext. intros ix. by rewrite List.map_map.
Qed.

Lemma map_ndindex_cons {B} (F : list nat -> B) (n : nat) (rest : list nat) :
  map F (Functions.ndindex (n :: rest)) =
  flat_map (fun i => map (fun ix => F (i :: ix)) (Functions.ndindex rest)) (seq 0 n).
Proof.
  cbn [Functions.ndindex]. rewrite map_flat_map.
  apply flat_map_ext. intros i. by rewrite List.map_map.
Qed.

Lemma map_ndindex5 {B} (F : list nat -> B) (n1 n2 n3 n4 n5 : nat) :
  map F (Functions.ndindex [n1; n2; n3; n4; n5]) =
  flat_map (fun i1 =>
    flat_map (fun i2 =>
      flat_map (fun i3 =>
        flat_map (fun i4 =>
          map (fun i5 => F [i1; i2; i3; i4; i5]) (seq 0 n5))
          (seq 0 n4)) (seq 0 n3)) (seq 0 n2)) (seq 0 n1).
Proof.
  rewrite map_ndindex_cons. apply flat_map_ext. intros i1.
  rewrite map_ndindex_cons. apply flat_map_ext. intros i2.
  rewrite map_ndindex_cons. apply flat_map_ext. intros i3.
  rewrite map_ndindex_cons. apply flat_map_ext. intros i4.
  rewrite map_ndindex_cons. rewrite flat_map_concat_map.
  cbn [Functions.ndindex map].
  induction (seq 0 n5) as [|i5 l IH]; simpl; [done | by f_equal].
Qed.

Lemma length_flat_map_const {A B} (g : A -> list B) (n : nat) (l : list A) :
  (forall x, length (g x) = n) -> length (flat_map g l) = n * length l.
Proof.
  intros Hg. induction l as [|x l IH]; simpl; [lia|].
  rewrite length_app, Hg, IH. lia.
Qed.

Lemma chunks_flat_map {A} (g : A -> list Qc) (n fuel : nat) (l : list A) :
  0 < n -> (forall x, length (g x) = n) -> length l <= fuel ->
  Functions.chunks fuel n (flat_map g l) = map g l.
Proof.
  intros Hn Hg. revert fuel. induction l as [|x l IH]; intros fuel Hfuel.
  - destruct fuel; reflexivity.
  - destruct fuel as [|fuel]; [simpl in Hfuel; lia|].
    cbn [flat_map map Functions.chunks].
    destruct (g x ++ flat_map g l) as [|y ys] eqn:E.
    + apply (f_equal length) in E. rewrite length_app, Hg in E. simpl in E. lia.
    + rewrite <- E.
      rewrite take_app_length', drop_app_length' by (symmetry; apply Hg). f_equal.
      apply IH. simpl in Hfuel. lia.
Qed.

(** The parameter part of a row, as a row of [combinations]. *)
Lemma combinations_grid es cs qs as_ ts :
  Functions.reshape_rows
    (Functions.T (Functions.np_array (Functions.meshgrid es cs qs as_ ts))) 5 =
  Ok (map (fun r => [employees r; calls r; avg_words_per_q r; avg_words_per_a r;
                     tokens_per_word r])
          (grid_rows es cs qs as_ ts)).
Proof.
  unfold Functions.reshape_rows, Functions.ravel.
  change (Functions.shape _) with
    ([length ts; length as_; length qs; length es; length cs] ++ [5]).
  rewrite ndindex_snoc, map_flat_map.
  set (ixs := Functions.ndindex _).
  set (g := fun ix : list nat => map _ (map _ (seq 0 5))).
  assert (Hg : forall ix, length (g ix) = 5) by (intros ix; reflexivity).
  rewrite (length_flat_map_const g 5 ixs Hg).
  rewrite Nat.mul_comm, Nat.Div0.mod_mul. cbn [Nat.eqb]. f_equal.
  rewrite chunks_flat_map; [| lia | done | lia].
  subst ixs. rewrite map_ndindex5. unfold grid_rows.
  rewrite map_flat_map, <- flat_map_nth_seq. apply flat_map_ext. intros it.
  rewrite map_flat_map, <- flat_map_nth_seq. apply flat_map_ext. intros ia.
  rewrite map_flat_map, <- flat_map_nth_seq. apply flat_map_ext. intros iq.
  rewrite map_flat_map, <- flat_map_nth_seq. apply flat_map_ext. intros ie.
  rewrite List.map_map, <- map_fun_nth_seq. apply map_ext. intros ic.
  reflexivity.
Qed.

Lemma zip_with_map {A B C D} (f : B -> C -> D) (g : A -> B) (h : A -> C) (l : list A) :
  zip_with f (map g l) (map h l) = map (fun x => f (g x) (h x)) l.
Proof. induction l as [|x l IH]; simpl; [done | by rewrite IH]. Qed.

Lemma series_mul_map {A} (g h : A -> Qc) (l : list A) :
  series_mul (map g l) (map h l) = map (fun x => (g x * h x)%Qc) l.
Proof. apply zip_with_map. Qed.

Lemma series_add_map {A} (g h : A -> Qc) (l : list A) :
  series_add (map g l) (map h l) = map (fun x => (g x + h x)%Qc) l.
Proof. apply zip_with_map. Qed.

Lemma grid_rows_are_grid_rows es cs qs as_ ts :
  Forall is_grid_row (grid_rows es cs qs as_ ts).
Proof.
  unfold grid_rows. apply List.Forall_forall. intros r Hr.
  apply in_flat_map in Hr as (t & _ & Hr).
  apply in_flat_map in Hr as (a & _ & Hr).
  apply in_flat_map in Hr as (q & _ & Hr).
  apply in_flat_map in Hr as (e & _ & Hr).
  apply in_map_iff in Hr as (c & <- & _). reflexivity.
Qed.

Lemma map_ext_Forall' {A B} (f g : A -> B) (l : list A) :
  Forall (fun x => f x = g x) l -> map f l = map g l.
Proof. induction 1; simpl; congruence. Qed.

Lemma bind_Ok {A B} (a : A) (k : A -> result B) : (Ok a ≫= k) = k a.
Proof. reflexivity. Qed.

Lemma bind_Raise {A B} (e : exn) (k : A -> result B) : (Raise e ≫= k) = Raise e.
Proof. reflexivity. Qed.

Lemma DataFrame_of_param_rows rs :
  DataFrame_of_rows
    (map (fun r => [employees r; calls r; avg_words_per_q r; avg_words_per_a r;
                    tokens_per_word r]) rs)
    ["employees"; "calls"; "avg_words_per_q"; "avg_words_per_a"; "tokens_per_word"] =
  {| index := length rs;
     columns := [("employees", map employees rs);
                 ("calls", map calls rs);
                 ("avg_words_per_q", map avg_words_per_q rs);
                 ("avg_words_per_a", map avg_words_per_a rs);
                 ("tokens_per_word", map tokens_per_word rs)] |}.
Proof.
  unfold DataFrame_of_rows. rewrite length_map. cbn [imap]. unfold compose.
  rewrite !List.map_map. reflexivity.
Qed.

Lemma make_df_cost_grid es cs qs as_ ts :
  Functions.make_df_cost es cs qs as_ ts = Ok (table_of (grid_rows es cs qs as_ ts)).
Proof.
  unfold Functions.make_df_cost. rewrite combinations_grid.
  pose proof (grid_rows_are_grid_rows es cs qs as_ ts) as Hrs.
  generalize dependent (grid_rows es cs qs as_ ts). intros rs Hrs.
  rewrite bind_Ok, DataFrame_of_param_rows.
  set (df0 := {| index := length rs; columns := _ |}).
  change (getitem df0 "employees") with (Ok (map employees rs)).
  change (getitem df0 "calls") with (Ok (map calls rs)).
  change (getitem df0 "avg_words_per_q") with (Ok (map avg_words_per_q rs)).
  change (getitem df0 "tokens_per_word") with (Ok (map tokens_per_word rs)).
  rewrite !bind_Ok.
  rewrite !series_mul_map. unfold series_div_scalar. rewrite List.map_map.
  rewrite setitem_Ok by (rewrite length_map; reflexivity).
  rewrite bind_Ok.
  set (df1 := {| index := index df0; columns := _ |}).
  change (getitem df1 "employees") with (Ok (map employees rs)).
  change (getitem df1 "calls") with (Ok (map calls rs)).
  change (getitem df1 "avg_words_per_a") with (Ok (map avg_words_per_a rs)).
  change (getitem df1 "tokens_per_word") with (Ok (map tokens_per_word rs)).
  rewrite !bind_Ok.
  rewrite !series_mul_map. rewrite List.map_map.
  rewrite setitem_Ok by (rewrite length_map; reflexivity).
  rewrite bind_Ok. unfold mret, result_ret. f_equal.
  unfold table_of. subst df1 df0. cbn [index columns set_col String.eqb Ascii.eqb Bool.eqb].
  assert (Hs : map (fun x => (employees x * calls x * avg_words_per_q x * tokens_per_word x
                              / of_Z 1000000)%Qc) rs = map m_tokens_sent rs).
  { apply map_ext_Forall'. eapply Forall_impl; [exact Hrs|].
    intros [e c q a t s r] Hr. unfold is_grid_row, grid_row in Hr. simpl in *.
    by injection Hr as -> ->. }
  assert (Hr : map (fun x => (employees x * calls x * avg_words_per_a x * tokens_per_word x
                              / of_Z 1000000)%Qc) rs = map m_tokens_received rs).
  { apply map_ext_Forall'. eapply Forall_impl; [exact Hrs|].
    intros [e c q a t s r] Hr. unfold is_grid_row, grid_row in Hr. simpl in *.
    by injection Hr as -> ->. }
  by rewrite Hs, Hr.
Qed.

(** ** Numbers *)

Lemma million : Qcpower (of_Z 10) 6 = of_Z 1000000.
Proof. apply Qc_is_canon. reflexivity. Qed.

Lemma million_nonzero : of_Z 1000000 <> 0%Qc.
Proof. intros H. apply (f_equal this) in H. vm_compute in H. discriminate. Qed.

Lemma loop_row_grid_row t c q a :
  loop_row (of_Z 800) t c q a = grid_row (of_Z 800) c q a t.
Proof. unfold loop_row, grid_row. by rewrite million. Qed.

Lemma loop_row_cross e t c q a : cross_relation (loop_row e t c q a).
Proof. unfold cross_relation, loop_row, Qcdiv. simpl. ring. Qed.

Lemma grid_row_cross e c q a t : cross_relation (grid_row e c q a t).
Proof. unfold cross_relation, grid_row, Qcdiv. simpl. ring. Qed.

(** ** Reordering nested iterations *)

Lemma flat_map_nil_body {A B} (l : list A) : flat_map (fun _ => @nil B) l = [].
Proof. induction l; simpl; done. Qed.

Lemma flat_map_app_body {A B} (g h : A -> list B) (l : list A) :
  flat_map (fun x => g x ++ h x) l ≡ₚ flat_map g l ++ flat_map h l.
Proof.
  induction l as [|x l IH]; simpl; [done|].
  rewrite IH. rewrite <- !app_assoc. apply Permutation_app_head.
  rewrite !app_assoc. apply Permutation_app_tail. apply Permutation_app_comm.
Qed.

Lemma flat_map_perm_ext {A B} (f g : A -> list B) (l : list A) :
  (forall x, f x ≡ₚ g x) -> flat_map f l ≡ₚ flat_map g l.
Proof.
  intros H. induction l as [|x l IH]; simpl; [done|].
  by apply Permutation_app.
Qed.

Lemma flat_map_swap {A B C} (f : A -> B -> list C) (xs : list A) (ys : list B) :
  flat_map (fun x => flat_map (fun y => f x y) ys) xs ≡ₚ
  flat_map (fun y => flat_map (fun x => f x y) xs) ys.
Proof.
  induction xs as [|x xs IH]; simpl.
  - by rewrite flat_map_nil_body.
  - rewrite flat_map_app_body. by apply Permutation_app.
Qed.

Lemma map_as_flat_map {A B} (f : A -> B) (l : list A) :
  map f l = flat_map (fun x => [f x]) l.
Proof. induction l as [|x l IH]; simpl; [done | by rewrite IH]. Qed.

Ltac under1 := apply flat_map_perm_ext; intros ?.
Ltac swap_at0 := etrans; [apply flat_map_swap|].
Ltac swap_at1 := etrans; [under1; apply flat_map_swap|].
Ltac swap_at2 := etrans; [under1; under1; apply flat_map_swap|].
Ltac swap_at3 := etrans; [under1; under1; under1; apply flat_map_swap|].

Lemma params_grid_rows es cs qs as_ ts :
  map params (grid_rows es cs qs as_ ts) =
  flat_map (fun t => flat_map (fun a => flat_map (fun q => flat_map (fun e =>
    flat_map (fun c => [(e, c, q, a, t)]) cs) es) qs) as_) ts.
Proof.
  unfold grid_rows.
  rewrite map_flat_map. apply flat_map_ext. intros t.
  rewrite map_flat_map. apply flat_map_ext. intros a.
  rewrite map_flat_map. apply flat_map_ext. intros q.
  rewrite map_flat_map. apply flat_map_ext. intros e.
  rewrite List.map_map. apply map_as_flat_map.
Qed.

Lemma product_flat es cs qs as_ ts :
  product es cs qs as_ ts =
  flat_map (fun e => flat_map (fun c => flat_map (fun q => flat_map (fun a =>
    flat_map (fun t => [(e, c, q, a, t)]) ts) as_) qs) cs) es.
Proof.
  unfold product.
  apply flat_map_ext. intros e. apply flat_map_ext. intros c.
  apply flat_map_ext. intros q. apply flat_map_ext. intros a.
  apply map_as_flat_map.
Qed.

Lemma grid_rows_product es cs qs as_ ts :
  map params (grid_rows es cs qs as_ ts) ≡ₚ product es cs qs as_ ts.
Proof.
  rewrite params_grid_rows, product_flat.
  (* t a q e c *)
  swap_at0. swap_at1. swap_at2. swap_at3.
  (* a q e c t *)
  swap_at0. swap_at1. swap_at2.
  (* q e c a t *)
  swap_at0. swap_at1.
  (* e c q a t *)
  reflexivity.
Qed.

Lemma loop_rows_product e cs qs as_ t :
  map params (loop_rows e cs qs as_ t) = product [e] cs qs as_ [t].
Proof.
  unfold loop_rows, product. cbn [flat_map]. rewrite app_nil_r.
  rewrite map_flat_map. apply flat_map_ext. intros c.
  rewrite map_flat_map. apply flat_map_ext. intros q.
  rewrite List.map_map. rewrite map_as_flat_map. apply flat_map_ext. intros a.
  reflexivity.
Qed.

Lemma loop_rows_grid_rows cs qs as_ t :
  loop_rows (of_Z 800) cs qs as_ t ≡ₚ grid_rows [of_Z 800] cs qs as_ [t].
Proof.
  unfold loop_rows, grid_rows. cbn [flat_map]. rewrite app_nil_r.
  transitivity
    (flat_map (fun c => flat_map (fun q => flat_map (fun a =>
       [grid_row (of_Z 800) c q a t]) as_) qs) cs).
  { under1. under1. rewrite map_as_flat_map. under1. by rewrite loop_row_grid_row. }
  transitivity
    (flat_map (fun a => flat_map (fun q => flat_map (fun c =>
       [grid_row (of_Z 800) c q a t]) cs) qs) as_).
  { (* c q a *) swap_at1. (* c a q *) swap_at0. (* a c q *) swap_at1. reflexivity. }
  under1. under1. rewrite app_nil_r. by rewrite map_as_flat_map.
Qed.

Lemma length_product es cs qs as_ ts :
  length (product es cs qs as_ ts) =
  length es * length cs * length qs * length as_ * length ts.
Proof.
  unfold product.
  rewrite (length_flat_map_const _ (length cs * length qs * length as_ * length ts)); [lia|].
  intros e.
  rewrite (length_flat_map_const _ (length qs * length as_ * length ts)); [lia|].
  intros c.
  rewrite (length_flat_map_const _ (length as_ * length ts)); [lia|].
  intros q.
  rewrite (length_flat_map_const _ (length ts)); [lia|].
  intros a. apply length_map.
Qed.

Lemma length_grid_rows es cs qs as_ ts :
  length (grid_rows es cs qs as_ ts) =
  length es * length cs * length qs * length as_ * length ts.
Proof.
  rewrite <- length_product, <- (Permutation_length (grid_rows_product es cs qs as_ ts)).
  by rewrite length_map.
Qed.

Lemma length_loop_rows e cs qs as_ t :
  length (loop_rows e cs qs as_ t) = length cs * length qs * length as_.
Proof.
  rewrite <- (length_map params), loop_rows_product, length_product. simpl. lia.
Qed.

Lemma loop_rows_nil e cs qs as_ t :
  loop_rows e cs qs as_ t = [] <-> cs = [] \/ qs = [] \/ as_ = [].
Proof.
  rewrite <- length_zero_iff_nil, length_loop_rows.
  rewrite <- !length_zero_iff_nil. lia.
Qed.

(** ** Distinct inputs give distinct parameter tuples *)

Lemma NoDup_flat_map_key {A B} (f : A -> list B) (key : B -> A) (l : list A) :
  NoDup l -> (forall x, NoDup (f x)) -> (forall x y, In y (f x) -> key y = x) ->
  NoDup (flat_map f l).
Proof.
  intros Hl Hf Hkey. induction Hl as [|x l Hx Hl IH]; simpl; [constructor|].
  apply NoDup_app. split; [apply Hf|]. split; [|done].
  intros y Hy Hy'. apply list_elem_of_In in Hy, Hy'.
  apply in_flat_map in Hy' as (x' & Hx' & Hy').
  apply Hkey in Hy, Hy'. subst. apply Hx. by apply list_elem_of_In.
Qed.

Lemma NoDup_product es cs qs as_ ts :
  NoDup es -> NoDup cs -> NoDup qs -> NoDup as_ -> NoDup ts ->
  NoDup (product es cs qs as_ ts).
Proof.
  intros He Hc Hq Ha Ht. rewrite product_flat.
  apply (NoDup_flat_map_key _ (fun p => p.1.1.1.1)); [done| |].
  - intros e. apply (NoDup_flat_map_key _ (fun p => p.1.1.1.2)); [done| |].
    + intros c. apply (NoDup_flat_map_key _ (fun p => p.1.1.2)); [done| |].
      * intros q. apply (NoDup_flat_map_key _ (fun p => p.1.2)); [done| |].
        -- intros a. apply (NoDup_flat_map_key _ (fun p => p.2)); [done| |].
           ++ intros t. apply NoDup_singleton.
           ++ intros t p [<-|[]]. done.
        -- intros a p Hp. apply in_flat_map in Hp as (t & _ & [<-|[]]). done.
      * intros q p Hp. apply in_flat_map in Hp as (a & _ & Hp).
        apply in_flat_map in Hp as (t & _ & [<-|[]]). done.
    + intros c p Hp. apply in_flat_map in Hp as (q & _ & Hp).
      apply in_flat_map in Hp as (a & _ & Hp).
      apply in_flat_map in Hp as (t & _ & [<-|[]]). done.
  - intros e p Hp. apply in_flat_map in Hp as (c & _ & Hp).
    apply in_flat_map in Hp as (q & _ & Hp).
    apply in_flat_map in Hp as (a & _ & Hp).
    apply in_flat_map in Hp as (t & _ & [<-|[]]). done.
Qed.

Lemma exactly_one_row_NoDup rs p :
  NoDup (map params rs) -> p ∈ map params rs -> exactly_one_row rs p.
Proof.
  intros Hnd Hin. apply list_elem_of_lookup in Hin as [i Hi].
  pose proof Hi as Hi'. rewrite lookup_map in Hi'.
  destruct (rs !! i) as [r|] eqn:Er; [|done]. simpl in Hi'. injection Hi' as Hp.
  exists i, r. split; [done|]. split; [done|].
  intros j r' Hj Hp'. eapply NoDup_lookup; [exact Hnd| |exact Hi].
  rewrite lookup_map, Hj. simpl. by rewrite Hp'.
Qed.

(** ** The scenario table builder *)

Lemma make_df_cost_loop_Ok e cs qs as_ t :
  cs <> [] -> qs <> [] -> as_ <> [] ->
  CostModel.make_df_cost e cs qs as_ t = Ok (table_of (loop_rows e cs qs as_ t)).
Proof.
  intros Hc Hq Ha. rewrite make_df_cost_loop.
  destruct (loop_rows e cs qs as_ t) eqn:E; [|done].
  apply loop_rows_nil in E. tauto.
Qed.

Lemma make_df_cost_loop_inv e cs qs as_ t df :
  CostModel.make_df_cost e cs qs as_ t = Ok df ->
  df = table_of (loop_rows e cs qs as_ t).
Proof.
  rewrite make_df_cost_loop. destruct (loop_rows e cs qs as_ t); [done|]. congruence.
Qed.

(** The loop variant raises ValueError exactly when one of the three lists is
    empty. *)
Lemma make_df_cost_loop_raises e cs qs as_ t :
  CostModel.make_df_cost e cs qs as_ t = Raise ValueError <->
  cs = [] \/ qs = [] \/ as_ = [].
Proof.
  rewrite make_df_cost_loop, <- (loop_rows_nil e cs qs as_ t).
  destruct (loop_rows e cs qs as_ t); split; done.
Qed.

(** The meshgrid variant never raises. *)
Lemma make_df_cost_grid_total es cs qs as_ ts :
  ~ raises (Functions.make_df_cost es cs qs as_ ts).
Proof. rewrite make_df_cost_grid. intros [e He]. done. Qed.

Lemma loop_rows_tokens e cs qs as_ t :
  Forall tokens_from_800 (loop_rows e cs qs as_ t).
Proof.
  unfold loop_rows. apply List.Forall_forall. intros r Hr.
  apply in_flat_map in Hr as (c & _ & Hr).
  apply in_flat_map in Hr as (q & _ & Hr).
  apply in_map_iff in Hr as (a & <- & _).
  unfold tokens_from_800, loop_row. rewrite million. split; reflexivity.
Qed.

Lemma grid_rows_tokens es cs qs as_ ts :
  Forall tokens_from_parameters (grid_rows es cs qs as_ ts).
Proof.
  eapply Forall_impl; [apply grid_rows_are_grid_rows|].
  intros r ->. split; reflexivity.
Qed.

(** In the meshgrid variant every row's token volumes are computed from the
    row's own employees value. *)
Lemma make_df_cost_grid_tokens es cs qs as_ ts :
  exists df rs,
    Functions.make_df_cost es cs qs as_ ts = Ok df /\
    records df = Some rs /\ Forall tokens_from_parameters rs.
Proof.
  exists (table_of (grid_rows es cs qs as_ ts)), (grid_rows es cs qs as_ ts).
  split; [apply make_df_cost_grid|]. split; [apply records_table_of|].
  apply grid_rows_tokens.
Qed.

(** In the loop variant every row's token volumes are computed with 800 in
    the place of the employees value. *)
Lemma make_df_cost_loop_tokens e cs qs as_ t df :
  CostModel.make_df_cost e cs qs as_ t = Ok df ->
  exists rs, records df = Some rs /\ Forall tokens_from_800 rs /\
             Forall (fun r => employees r = e) rs.
Proof.
  intros ->%make_df_cost_loop_inv. exists (loop_rows e cs qs as_ t).
  split; [apply records_table_of|]. split; [apply loop_rows_tokens|].
  unfold loop_rows. apply List.Forall_forall. intros r Hr.
  apply in_flat_map in Hr as (c & _ & Hr).
  apply in_flat_map in Hr as (q & _ & Hr).
  apply in_map_iff in Hr as (a & <- & _). reflexivity.
Qed.

(** Linearity of a row's token volumes in each of the three factors, for the
    formula of the meshgrid variant ... *)
Lemma grid_row_double_employees e c q a t :
  m_tokens_sent (grid_row (2 * e) c q a t) = (2 * m_tokens_sent (grid_row e c q a t))%Qc /\
  m_tokens_received (grid_row (2 * e) c q a t) = (2 * m_tokens_received (grid_row e c q a t))%Qc.
Proof. unfold grid_row, Qcdiv. simpl. split; ring. Qed.

Lemma grid_row_double_calls e c q a t :
  m_tokens_sent (grid_row e (2 * c) q a t) = (2 * m_tokens_sent (grid_row e c q a t))%Qc /\
  m_tokens_received (grid_row e (2 * c) q a t) = (2 * m_tokens_received (grid_row e c q a t))%Qc.
Proof. unfold grid_row, Qcdiv. simpl. split; ring. Qed.

Lemma grid_row_double_tokens_per_word e c q a t :
  m_tokens_sent (grid_row e c q a (2 * t)) = (2 * m_tokens_sent (grid_row e c q a t))%Qc /\
  m_tokens_received (grid_row e c q a (2 * t)) = (2 * m_tokens_received (grid_row e c q a t))%Qc.
Proof. unfold grid_row, Qcdiv. simpl. split; ring. Qed.

(** ... and, in [calls] and [tokens_per_word], for the loop variant. *)
Lemma loop_row_double_calls e t c q a :
  m_tokens_sent (loop_row e t (2 * c) q a) = (2 * m_tokens_sent (loop_row e t c q a))%Qc /\
  m_tokens_received (loop_row e t (2 * c) q a) = (2 * m_tokens_received (loop_row e t c q a))%Qc.
Proof. unfold loop_row, Qcdiv. simpl. split; ring. Qed.

Lemma loop_row_double_tokens_per_word e t c q a :
  m_tokens_sent (loop_row e (2 * t) c q a) = (2 * m_tokens_sent (loop_row e t c q a))%Qc /\
  m_tokens_received (loop_row e (2 * t) c q a) = (2 * m_tokens_received (loop_row e t c q a))%Qc.
Proof. unfold loop_row, Qcdiv. simpl. split; ring. Qed.

(** The loop variant's token volumes do not depend on [employees] at all. *)
Lemma loop_row_employees_unused e e' t c q a :
  m_tokens_sent (loop_row e t c q a) = m_tokens_sent (loop_row e' t c q a) /\
  m_tokens_received (loop_row e t c q a) = m_tokens_received (loop_row e' t c q a).
Proof. split; reflexivity. Qed.

(** C1: at [employees = 1000] the loop variant reports the token volumes of
    800 employees: the row carries [employees = 1000], [m_tokens_sent = 2] and
    [m_tokens_received = 4], where the row's own parameters give 2.5 and 5. *)
Theorem make_df_cost_hardcodes_800 :
  exists df r,
    CostModel.make_df_cost (of_Z 1000) [of_Z 50] [of_Z 50] [of_Z 100] (of_Z 1) = Ok df /\
    records df = Some [r] /\
    employees r = of_Z 1000 /\
    m_tokens_sent r = of_Z 2 /\
    m_tokens_received r = of_Z 4 /\
    (employees r * calls r * avg_words_per_q r * tokens_per_word r / of_Z 1000000)%Qc
      = decimal 5 2 /\
    (employees r * calls r * avg_words_per_a r * tokens_per_word r / of_Z 1000000)%Qc
      = of_Z 5 /\
    ~ tokens_from_parameters r.
Proof.
  exists (table_of (loop_rows (of_Z 1000) [of_Z 50] [of_Z 50] [of_Z 100] (of_Z 1))).
  exists (loop_row (of_Z 1000) (of_Z 1) (of_Z 50) (of_Z 50) (of_Z 100)).
  split; [by apply make_df_cost_loop_Ok|].
  split; [apply records_table_of|].
  split; [reflexivity|].
  split; [apply Qc_is_canon; reflexivity|].
  split; [apply Qc_is_canon; reflexivity|].
  split; [apply Qc_is_canon; reflexivity|].
  split; [apply Qc_is_canon; reflexivity|].
  intros [H _]. apply (f_equal this) in H. vm_compute in H. discriminate.
Qed.

(** C3: with an empty [calls] array the meshgrid variant raises nothing and
    returns a table with no rows. *)
Theorem make_df_cost_grid_empty_calls :
  exists df,
    Functions.make_df_cost [of_Z 800] [] [of_Z 50] [of_Z 100] [decimal 133 100] = Ok df /\
    index df = 0 /\ records df = Some [].
Proof.
  exists (table_of []). split; [|done].
  by rewrite make_df_cost_grid.
Qed.

(** C7: doubling [employees] from 800 to 1600 in the loop variant leaves both
    token volumes of the row where they were (2.66 and 5.32). *)
Theorem make_df_cost_loop_not_linear_in_employees :
  exists d1 d2 r1 r2,
    CostModel.make_df_cost (of_Z 800) [of_Z 50] [of_Z 50] [of_Z 100] (decimal 133 100)
      = Ok d1 /\
    CostModel.make_df_cost (of_Z 1600) [of_Z 50] [of_Z 50] [of_Z 100] (decimal 133 100)
      = Ok d2 /\
    records d1 = Some [r1] /\ records d2 = Some [r2] /\
    employees r2 = (2 * employees r1)%Qc /\
    m_tokens_sent r1 = decimal 266 100 /\ m_tokens_sent r2 = decimal 266 100 /\
    m_tokens_received r1 = decimal 532 100 /\ m_tokens_received r2 = decimal 532 100 /\
    m_tokens_sent r2 <> (2 * m_tokens_sent r1)%Qc /\
    m_tokens_received r2 <> (2 * m_tokens_received r1)%Qc.
Proof.
  exists (table_of (loop_rows (of_Z 800) [of_Z 50] [of_Z 50] [of_Z 100] (decimal 133 100))).
  exists (table_of (loop_rows (of_Z 1600) [of_Z 50] [of_Z 50] [of_Z 100] (decimal 133 100))).
  exists (loop_row (of_Z 800) (decimal 133 100) (of_Z 50) (of_Z 50) (of_Z 100)).
  exists (loop_row (of_Z 1600) (decimal 133 100) (of_Z 50) (of_Z 50) (of_Z 100)).
  split; [by apply make_df_cost_loop_Ok|].
  split; [by apply make_df_cost_loop_Ok|].
  split; [apply records_table_of|].
  split; [apply records_table_of|].
  split; [apply Qc_is_canon; reflexivity|].
  split; [apply Qc_is_canon; reflexivity|].
  split; [apply Qc_is_canon; reflexivity|].
  split; [apply Qc_is_canon; reflexivity|].
  split; [apply Qc_is_canon; reflexivity|].
  split; intros H; apply (f_equal this) in H; vm_compute in H; discriminate.
Qed.

Lemma cartesian_table_of rs es cs qs as_ ts :
  map params rs ≡ₚ product es cs qs as_ ts ->
  NoDup (product es cs qs as_ ts) ->
  cartesian_table (table_of rs) es cs qs as_ ts.
Proof.
  intros Hperm Hnd. exists rs.
  assert (Hlen : length rs = length es * length cs * length qs * length as_ * length ts).
  { rewrite <- length_product, <- (Permutation_length Hperm). by rewrite length_map. }
  split; [apply records_table_of|]. split; [exact Hlen|]. split; [done|]. split.
  - intros p Hp. apply exactly_one_row_NoDup.
    + by rewrite Hperm.
    + by rewrite Hperm.
  - intros r Hr. rewrite <- Hperm. apply list_elem_of_In, in_map, list_elem_of_In, Hr.
Qed.

(** Without any assumption on repeated values: the parameter tuples of the
    rows are the cartesian product, tuple for tuple. *)
Lemma make_df_cost_grid_product es cs qs as_ ts :
  exists df rs,
    Functions.make_df_cost es cs qs as_ ts = Ok df /\ records df = Some rs /\
    index df = length es * length cs * length qs * length as_ * length ts /\
    map params rs ≡ₚ product es cs qs as_ ts.
Proof.
  exists (table_of (grid_rows es cs qs as_ ts)), (grid_rows es cs qs as_ ts).
  split; [apply make_df_cost_grid|]. split; [apply records_table_of|].
  split; [apply length_grid_rows|]. apply grid_rows_product.
Qed.

Lemma make_df_cost_loop_product e cs qs as_ t :
  cs <> [] -> qs <> [] -> as_ <> [] ->
  exists df rs,
    CostModel.make_df_cost e cs qs as_ t = Ok df /\ records df = Some rs /\
    index df = length cs * length qs * length as_ /\
    map params rs = product [e] cs qs as_ [t].
Proof.
  intros Hc Hq Ha.
  exists (table_of (loop_rows e cs qs as_ t)), (loop_rows e cs qs as_ t).
  split; [by apply make_df_cost_loop_Ok|]. split; [apply records_table_of|].
  split; [apply length_loop_rows|]. apply loop_rows_product.
Qed.

(** C2, as amended: for input collections without repeated values (non-empty
    ones for the loop variant) [make_df_cost] returns a table with
    [e * c * q * a * t] rows in which every tuple of the cartesian product is
    the parameter tuple of exactly one row, and every row carries such a
    tuple; a scalar argument of the loop variant counts as a singleton. *)
Theorem make_df_cost_cartesian :
  (forall e cs qs as_ t,
      cs <> [] -> qs <> [] -> as_ <> [] ->
      NoDup cs -> NoDup qs -> NoDup as_ ->
      exists df, CostModel.make_df_cost e cs qs as_ t = Ok df /\
                 cartesian_table df [e] cs qs as_ [t]) /\
  (forall es cs qs as_ ts,
      NoDup es -> NoDup cs -> NoDup qs -> NoDup as_ -> NoDup ts ->
      exists df, Functions.make_df_cost es cs qs as_ ts = Ok df /\
                 cartesian_table df es cs qs as_ ts).
Proof.
  split.
  - intros e cs qs as_ t Hc Hq Ha Nc Nq Na.
    exists (table_of (loop_rows e cs qs as_ t)).
    split; [by apply make_df_cost_loop_Ok|].
    apply cartesian_table_of.
    + by rewrite loop_rows_product.
    + apply NoDup_product; try done; apply NoDup_singleton.
  - intros es cs qs as_ ts Ne Nc Nq Na Nt.
    exists (table_of (grid_rows es cs qs as_ ts)).
    split; [apply make_df_cost_grid|].
    apply cartesian_table_of; [apply grid_rows_product | by apply NoDup_product].
Qed.

Lemma NoDup_two (x y : Qc) : this x <> this y -> NoDup [x; y].
Proof.
  intros H. apply NoDup_cons. split; [|apply NoDup_singleton].
  intros ->%list_elem_of_singleton. done.
Qed.

Lemma make_df_cost_cartesian_witness :
  exists df,
    CostModel.make_df_cost (of_Z 800) [of_Z 50; of_Z 100] [of_Z 50] [of_Z 100; of_Z 200]
      (decimal 133 100) = Ok df /\
    cartesian_table df [of_Z 800] [of_Z 50; of_Z 100] [of_Z 50] [of_Z 100; of_Z 200]
      [decimal 133 100].
Proof.
  apply (proj1 make_df_cost_cartesian); try discriminate.
  - apply NoDup_two. vm_compute. discriminate.
  - apply NoDup_singleton.
  - apply NoDup_two. vm_compute. discriminate.
Defined.

(** C2, counterexample: with the value 50 listed twice in [calls], the tuple
    (800, 50, 50, 100, 1) of the cartesian product is carried by two rows, in
    the loop variant and in the meshgrid variant alike. *)
Lemma make_df_cost_repeated_value :
  let p := (of_Z 800, of_Z 50, of_Z 50, of_Z 100, of_Z 1) in
  p ∈ product [of_Z 800] [of_Z 50; of_Z 50] [of_Z 50] [of_Z 100] [of_Z 1] /\
  (exists df rs,
      CostModel.make_df_cost (of_Z 800) [of_Z 50; of_Z 50] [of_Z 50] [of_Z 100] (of_Z 1)
        = Ok df /\
      records df = Some rs /\ index df = 2 /\ ~ exactly_one_row rs p) /\
  (exists df rs,
      Functions.make_df_cost [of_Z 800] [of_Z 50; of_Z 50] [of_Z 50] [of_Z 100] [of_Z 1]
        = Ok df /\
      records df = Some rs /\ index df = 2 /\ ~ exactly_one_row rs p).
Proof.
  intros p. split; [apply list_elem_of_here|]. split.
  - exists (table_of (loop_rows (of_Z 800) [of_Z 50; of_Z 50] [of_Z 50] [of_Z 100] (of_Z 1))).
    eexists. split; [by apply make_df_cost_loop_Ok|].
    split; [apply records_table_of|]. split; [reflexivity|].
    intros (i & r & _ & _ & Huniq).
    pose proof (Huniq 0 _ eq_refl eq_refl) as H0.
    pose proof (Huniq 1 _ eq_refl eq_refl) as H1. congruence.
  - exists (table_of (grid_rows [of_Z 800] [of_Z 50; of_Z 50] [of_Z 50] [of_Z 100] [of_Z 1])).
    eexists. split; [apply make_df_cost_grid|].
    split; [apply records_table_of|]. split; [reflexivity|].
    intros (i & r & _ & _ & Huniq).
    pose proof (Huniq 0 _ eq_refl eq_refl) as H0.
    pose proof (Huniq 1 _ eq_refl eq_refl) as H1. congruence.
Qed.

(** ** Machine arithmetic: products of small integers are exact *)

Section MachineExact.

Local Open Scope Z_scope.

Lemma iter_pos_nat {A} (f : A -> A) (p : positive) (x : A) :
  SpecFloat.iter_pos f p x = Nat.iter (Pos.to_nat p) f x.
Proof.
  revert x. induction p as [p IH|p IH|]; intros x; cbn [SpecFloat.iter_pos].
  - rewrite !IH, Pos2Nat.inj_xI.
    replace (S (2 * Pos.to_nat p))%nat with (Pos.to_nat p + S (Pos.to_nat p))%nat by lia.
    rewrite Nat.iter_add, Nat.iter_succ_r. reflexivity.
  - rewrite !IH, Pos2Nat.inj_xO.
    replace (2 * Pos.to_nat p)%nat with (Pos.to_nat p + Pos.to_nat p)%nat by lia.
    rewrite Nat.iter_add. reflexivity.
  - reflexivity.
Qed.

Lemma Zdigits2_log2 (p : positive) : Zdigits2 (Zpos p) = Z.log2 (Zpos p) + 1.
Proof.
  cbn [Zdigits2]. induction p as [p IH|p IH|]; cbn [digits2_pos]; [| |reflexivity].
  - rewrite Pos2Z.inj_succ, IH. rewrite Pos2Z.inj_xI.
    rewrite (Z.log2_succ_double (Zpos p)) by lia. lia.
  - rewrite Pos2Z.inj_succ, IH. rewrite Pos2Z.inj_xO.
    rewrite (Z.log2_double (Zpos p)) by lia. lia.
Qed.

(** Shifting an exact multiple of [2^k] right by [k] places is exact. *)
Lemma iter_shr_1_exact (k : nat) (m M : positive) :
  Zpos m = Zpos M * 2 ^ Z.of_nat k ->
  Nat.iter k shr_1 (Build_shr_record (Zpos m) false false)
  = Build_shr_record (Zpos M) false false.
Proof.
  revert m. induction k as [|k IH]; intros m Hm.
  - rewrite Z.pow_0_r, Z.mul_1_r in Hm. injection Hm as ->. reflexivity.
  - rewrite Nat.iter_succ_r.
    rewrite Nat2Z.inj_succ, Z.pow_succ_r in Hm by lia.
    destruct m as [m|m|]; try lia.
    cbn [shr_1 orb]. apply IH. lia.
Qed.

Lemma binary_round_aux_exact (s : bool) (m M : positive) (k E : Z) :
  0 <= k -> Zpos m = Zpos M * 2 ^ k -> Zdigits2 (Zpos M) = 53 ->
  -1074 <= E <= 971 ->
  binary_round_aux 53 1024 s (Zpos m) (E - k) loc_Exact = S754_finite s M E.
Proof.
  intros Hk Hm HM HE. unfold binary_round_aux, shr_fexp.
  assert (Hd : Zdigits2 (Zpos m) = 53 + k).
  { rewrite Zdigits2_log2 in *. rewrite Hm, Z.log2_mul_pow2 by lia. lia. }
  rewrite Hd. cbn [shr_record_of_loc].
  assert (Hf : fexp 53 1024 (53 + k + (E - k)) - (E - k) = k).
  { unfold fexp, emin. lia. }
  rewrite Hf.
  assert (Hshr : shr (Build_shr_record (Zpos m) false false) (E - k) k
                 = (Build_shr_record (Zpos M) false false, E)).
  { unfold shr. destruct k as [|k|k]; [| |lia].
    - rewrite Z.pow_0_r, Z.mul_1_r in Hm. injection Hm as ->. f_equal. lia.
    - rewrite iter_pos_nat. f_equal; [|lia]. apply iter_shr_1_exact.
      rewrite positive_nat_Z. exact Hm. }
  rewrite Hshr. cbn [shr_m loc_of_shr_record round_nearest_even].
  rewrite HM.
  assert (Hf' : fexp 53 1024 (53 + E) - E = 0) by (unfold fexp, emin; lia).
  rewrite Hf'. cbn [shr shr_m shr_record_of_loc].
  destruct (Z.leb_spec E (1024 - 53)); [reflexivity | lia].
Qed.

Lemma pos_iter_xO (p n : positive) : Zpos (Pos.iter xO p n) = Zpos p * 2 ^ Zpos n.
Proof.
  induction n as [|n IH] using Pos.peano_ind.
  - simpl. lia.
  - rewrite Pos.iter_succ, Pos2Z.inj_xO, IH, Pos2Z.inj_succ, Z.pow_succ_r by lia. lia.
Qed.

Lemma Zdigits2_bound (p : positive) : Zpos p < 2 ^ 53 -> 1 <= Zdigits2 (Zpos p) <= 53.
Proof.
  intros Hp. rewrite Zdigits2_log2.
  assert (0 <= Z.log2 (Zpos p)) by apply Z.log2_nonneg.
  assert (Z.log2 (Zpos p) < 53) by (apply Z.log2_lt_pow2; lia). lia.
Qed.

(** The binary64 of a positive integer below [2^53]: the integer itself,
    with its significand shifted to 53 digits. *)
Lemma of_int_small (p : positive) :
  Zpos p < 2 ^ 53 ->
  exists M, Zpos M = Zpos p * 2 ^ (53 - Zdigits2 (Zpos p)) /\
            Zdigits2 (Zpos M) = 53 /\
            Machine.of_int (Zpos p) = S754_finite false M (Zdigits2 (Zpos p) - 53).
Proof.
  intros Hp. pose proof (Zdigits2_bound p Hp) as Hd.
  unfold Machine.of_int, binary_normalize, binary_round.
  change (Zpos (digits2_pos p)) with (Zdigits2 (Zpos p)).
  set (d := Zdigits2 (Zpos p)) in *.
  assert (Hf : fexp Machine.prec Machine.emax (d + 0) = d - 53).
  { unfold fexp, emin, Machine.prec, Machine.emax. lia. }
  rewrite Hf. unfold shl_align. rewrite Z.sub_0_r.
  destruct (d - 53) as [|n|n] eqn:Hn; [|lia|].
  - exists p. split; [replace (53 - d) with 0 by lia; lia|].
    split; [lia|].
    apply (binary_round_aux_exact false p p 0 0); [lia|lia| |lia].
    fold d. lia.
  - exists (Pos.iter xO p n).
    assert (Hz : Zpos (Pos.iter xO p n) = Zpos p * 2 ^ (53 - d)).
    { rewrite pos_iter_xO. f_equal. f_equal. lia. }
    assert (Hdig : Zdigits2 (Zpos (Pos.iter xO p n)) = 53).
    { rewrite Zdigits2_log2, Hz, Z.log2_mul_pow2 by lia.
      unfold d. rewrite Zdigits2_log2. lia. }
    split; [exact Hz|]. split; [exact Hdig|].
    replace (Zneg n) with (Zneg n - 0) by lia.
    apply (binary_round_aux_exact false _ _ 0 (Zneg n)); [lia|lia|exact Hdig|lia].
Qed.

(** The product of two non-negative integers is computed exactly when it is
    below [2^53]. *)
Lemma mul_of_int (a b : Z) :
  0 <= a < 2 ^ 53 -> 0 <= b < 2 ^ 53 -> a * b < 2 ^ 53 ->
  Machine.mul (Machine.of_int a) (Machine.of_int b) = Machine.of_int (a * b).
Proof.
  intros Ha Hb Hab.
  destruct a as [|pa|pa]; [|  |lia].
  { destruct b as [|pb|pb]; [reflexivity| |lia].
    destruct (of_int_small pb) as (M & _ & _ & ->); [lia|]. reflexivity. }
  destruct b as [|pb|pb]; [| |lia].
  { destruct (of_int_small pa) as (M & _ & _ & ->); [lia|]. reflexivity. }
  destruct (of_int_small pa) as (Ma & HMa & _ & ->); [lia|].
  destruct (of_int_small pb) as (Mb & HMb & _ & ->); [lia|].
  change (Zpos pa * Zpos pb) with (Zpos (pa * pb)).
  destruct (of_int_small (pa * pb)) as (M & HM & HdM & ->); [lia|].
  pose proof (Zdigits2_bound pa ltac:(lia)) as Hda.
  pose proof (Zdigits2_bound pb ltac:(lia)) as Hdb.
  pose proof (Zdigits2_bound (pa * pb) ltac:(lia)) as Hd.
  assert (Hlog : Zdigits2 (Zpos pa) + Zdigits2 (Zpos pb) - 1 <= Zdigits2 (Zpos (pa * pb))).
  { rewrite !Zdigits2_log2. rewrite Pos2Z.inj_mul.
    pose proof (Z.log2_mul_below (Zpos pa) (Zpos pb) ltac:(lia) ltac:(lia)). lia. }
  set (da := Zdigits2 (Zpos pa)) in *. set (db := Zdigits2 (Zpos pb)) in *.
  set (d := Zdigits2 (Zpos (pa * pb))) in *.
  unfold Machine.mul, SFmul. cbn [xorb].
  replace (da - 53 + (db - 53)) with ((d - 53) - (53 + d - da - db)) by lia.
  apply binary_round_aux_exact; [lia| |exact HdM|lia].
  rewrite Pos2Z.inj_mul, HMa, HMb, HM, Pos2Z.inj_mul.
  assert (Hpow : 2 ^ (53 - da) * 2 ^ (53 - db) = 2 ^ (53 - d) * 2 ^ (53 + d - da - db)).
  { rewrite <- !Z.pow_add_r by lia. f_equal. lia. }
  transitivity (Zpos pa * Zpos pb * (2 ^ (53 - da) * 2 ^ (53 - db))); [ring|].
  rewrite Hpow. ring.
Qed.

Lemma to_float_small (z : Z) :
  0 <= z < 2 ^ 53 -> Machine.to_float z = Ok (Machine.of_int z).
Proof.
  intros Hz. unfold Machine.to_float.
  destruct z as [|p|p]; [reflexivity| |lia].
  destruct (of_int_small p) as (M & _ & _ & ->); [lia|]. reflexivity.
Qed.

Lemma loop_tokens_grid_tokens (c w : Z) (t : Machine.float) :
  0 <= c -> 0 <= w < 2 ^ 53 -> 800 * c < 2 ^ 53 -> 800 * c * w < 2 ^ 53 ->
  Machine.loop_tokens (Machine.Int c) (Machine.Int w) (Machine.Float t)
  = Ok (Machine.grid_tokens
          (Machine.Float64 (Machine.of_int 800) (Machine.of_int c) (Machine.of_int w) t)).
Proof.
  intros Hc Hw Hcw Hcww.
  unfold Machine.loop_tokens, Machine.grid_tokens.
  cbn [Machine.py_mul mbind result_bind].
  rewrite to_float_small by lia. cbn [mbind result_bind Machine.py_truediv].
  rewrite (to_float_small (Zpos (10 ^ 6))) by (simpl; lia). cbn [mbind result_bind].
  rewrite !mul_of_int by lia. reflexivity.
Qed.

End MachineExact.







(** ** The cost attributor: pricing entries and broadcasting *)

Lemma bind_Ok_inv {A B} (m : result A) (k : A -> result B) (b : B) :
  (m ≫= k) = Ok b -> exists a, m = Ok a /\ k a = Ok b.
Proof. destruct m as [a|e]; [|done]. intros H. by exists a. Qed.

Lemma raises_bind_l {A B} (m : result A) (k : A -> result B) :
  raises m -> raises (m ≫= k).
Proof. intros [e ->]. by exists e. Qed.

Lemma getitem_Ok df name c :
  lookup_col name (columns df) = Some c -> getitem df name = Ok c.
Proof. unfold getitem. by intros ->. Qed.

Lemma getitem_inv df name c :
  getitem df name = Ok c -> lookup_col name (columns df) = Some c.
Proof. unfold getitem. destruct (lookup_col name (columns df)); [|done]. congruence. Qed.

Lemma length_select p model c :
  length c = length (modell p) ->
  length (select (model_mask p model) c) = entries p model.
Proof.
  unfold model_mask, entries. generalize (modell p) as ms. intros ms. revert c.
  induction ms as [|m ms IH]; intros [|x c] Hlen; simpl in Hlen; try done.
  cbn [map select]. rewrite filter_cons.
  destruct (String.eqb m model) eqn:E.
  - apply String.eqb_eq in E. rewrite decide_True by done. simpl. f_equal. apply IH. lia.
  - apply String.eqb_neq in E. rewrite decide_False by done. apply IH. lia.
Qed.

Lemma loc_length p model col c :
  wf_pricing p -> loc p (model_mask p model) col = Ok c -> length c = entries p model.
Proof.
  unfold loc, wf_pricing. intros Hwf.
  destruct (lookup_col col (price_columns p)) as [c'|] eqn:E; [|done].
  intros [= <-]. apply length_select.
  clear model. induction Hwf as [|[n x] cols Hx Hwf IH]; simpl in E; [done|].
  destruct (String.eqb n col); [|by apply IH]. by injection E as <-.
Qed.

(** With exactly one entry for the model, the selection is the one-element
    array holding [rate]. *)
Lemma loc_single p model col c :
  wf_pricing p -> lookup_col col (price_columns p) = Some c -> entries p model = 1 ->
  loc p (model_mask p model) col = Ok [rate p model col].
Proof.
  intros Hwf Hc Hone.
  assert (Hlen : length (select (model_mask p model) c) = 1).
  { rewrite <- Hone. eapply loc_length; [done|]. unfold loc. by rewrite Hc. }
  unfold loc, rate. rewrite Hc.
  destruct (select (model_mask p model) c) as [|r [|r' l]]; simpl in Hlen; try done.
Qed.

Lemma np_mul_single (a : Series) (r : Qc) : np_mul a [r] = Ok (scale r a).
Proof.
  unfold np_mul, scale. destruct (Nat.eqb (length a) (length [r])) eqn:E; [|done].
  apply Nat.eqb_eq in E. destruct a as [|x [|y a]]; simpl in E; done.
Qed.

Lemma length_scale r (a : Series) : length (scale r a) = length a.
Proof. apply length_map. Qed.

Lemma length_series_add (a b : Series) :
  length a = length b -> length (series_add a b) = length a.
Proof. intros H. unfold series_add. rewrite length_zip_with. lia. Qed.

(** An array that is neither of length one nor as long as the table cannot
    be multiplied with a column and stored. *)
Lemma np_mul_setitem_raises df name (a b : Series) :
  length a = index df -> length b <> 1 -> length b <> index df ->
  raises (v ← np_mul a b; setitem df name v).
Proof.
  intros Ha Hb1 Hbn. unfold np_mul.
  destruct (Nat.eqb (length a) (length b)) eqn:E.
  { apply Nat.eqb_eq in E. lia. }
  destruct b as [|y [|y' b]]; [| simpl in Hb1; lia |].
  - destruct a as [|x [|x' a]]; [by eexists | | by eexists].
    rewrite bind_Ok. exists ValueError. apply setitem_raises. simpl in *. lia.
  - destruct a as [|x [|x' a]]; [by eexists | | by eexists].
    rewrite bind_Ok. exists ValueError. apply setitem_raises.
    rewrite length_map. simpl in *. lia.
Qed.

(** ** One iteration of the loop over [models] *)

Section Iteration.

Context (p : PricingFrame) (cost_sent cost_rec sent_col rec_col : string).

(** An iteration that returns keeps the index and the column lengths. *)
Lemma cost_columns_wf df model df' :
  wf df ->
  cost_columns p cost_sent cost_rec sent_col rec_col df model = Ok df' ->
  wf df' /\ index df' = index df.
Proof.
  intros Hwf H. unfold cost_columns in H.
  apply bind_Ok_inv in H as (sent & _ & H).
  apply bind_Ok_inv in H as (r1 & _ & H).
  apply bind_Ok_inv in H as (v1 & _ & H).
  apply bind_Ok_inv in H as (df1 & H1 & H).
  apply bind_Ok_inv in H as (recv & _ & H).
  apply bind_Ok_inv in H as (r2 & _ & H).
  apply bind_Ok_inv in H as (v2 & _ & H).
  apply bind_Ok_inv in H as (df2 & H2 & H).
  apply bind_Ok_inv in H as (qc & _ & H).
  apply bind_Ok_inv in H as (ac & _ & H).
  pose proof (setitem_wf _ _ _ _ Hwf H1) as Hwf1.
  pose proof (setitem_wf _ _ _ _ Hwf1 H2) as Hwf2.
  pose proof (setitem_wf _ _ _ _ Hwf2 H) as Hwf3.
  apply setitem_inv in H1 as (_ & Hi1 & _).
  apply setitem_inv in H2 as (_ & Hi2 & _).
  apply setitem_inv in H as (_ & Hi3 & _).
  split; [done | congruence].
Qed.

(** An iteration for a model whose number of pricing entries is neither one
    nor the number of rows raises. *)
Lemma cost_columns_raises df model :
  wf df -> wf_pricing p ->
  entries p model <> 1 -> entries p model <> index df ->
  raises (cost_columns p cost_sent cost_rec sent_col rec_col df model).
Proof.
  intros Hwf Hwfp H1 Hn. unfold cost_columns.
  destruct (getitem df sent_col) as [sent|e] eqn:Es; [|by exists e].
  rewrite bind_Ok.
  destruct (loc p (model_mask p model) cost_sent) as [r|e] eqn:Er; [|by exists e].
  rewrite bind_Ok.
  apply getitem_inv, (lookup_col_length _ _ _ Hwf) in Es.
  apply (loc_length _ _ _ _ Hwfp) in Er.
  pose proof (np_mul_setitem_raises df (question_col model) sent r Es) as [e He];
    [congruence | congruence |].
  destruct (np_mul sent r) as [v|e']; [|by exists e'].
  rewrite bind_Ok in *. rewrite He. by exists e.
Qed.

(** An iteration for a model with exactly one pricing entry. *)
Lemma cost_columns_Ok df model (sent received sent_rates rec_rates : Series) :
  wf df -> wf_pricing p ->
  lookup_col sent_col (columns df) = Some sent ->
  lookup_col rec_col (columns df) = Some received ->
  lookup_col cost_sent (price_columns p) = Some sent_rates ->
  lookup_col cost_rec (price_columns p) = Some rec_rates ->
  entries p model = 1 ->
  rec_col <> question_col model ->
  let question := scale (rate p model cost_sent) sent in
  let answer := scale (rate p model cost_rec) received in
  cost_columns p cost_sent cost_rec sent_col rec_col df model =
  Ok {| index := index df;
        columns := set_col (total_col model) (series_add question answer)
                     (set_col (answer_col model) answer
                        (set_col (question_col model) question (columns df))) |}.
Proof.
  intros Hwf Hwfp Hs Hr Hcs Hcr Hone Hne question answer. unfold cost_columns.
  pose proof (lookup_col_length _ _ _ Hwf Hs) as Hls.
  pose proof (lookup_col_length _ _ _ Hwf Hr) as Hlr.
  rewrite (getitem_Ok _ _ _ Hs), bind_Ok.
  rewrite (loc_single _ _ _ _ Hwfp Hcs Hone), bind_Ok.
  rewrite np_mul_single, bind_Ok. fold question.
  rewrite setitem_Ok by (unfold question; by rewrite length_scale).
  rewrite bind_Ok.
  rewrite (getitem_Ok _ rec_col received)
    by (cbn [columns]; rewrite lookup_col_set_col_ne by done; exact Hr).
  rewrite bind_Ok.
  rewrite (loc_single _ _ _ _ Hwfp Hcr Hone), bind_Ok.
  rewrite np_mul_single, bind_Ok. fold answer.
  rewrite setitem_Ok by (unfold answer; by rewrite length_scale).
  rewrite bind_Ok.
  rewrite (getitem_Ok _ (question_col model) question).
  2:{ cbn [columns].
      rewrite lookup_col_set_col_ne by (intros E; symmetry in E; by apply question_answer_ne in E).
      apply lookup_col_set_col_eq. }
  rewrite bind_Ok.
  rewrite (getitem_Ok _ (answer_col model) answer) by (cbn [columns]; apply lookup_col_set_col_eq).
  rewrite bind_Ok.
  rewrite setitem_Ok; [done|].
  cbn [index]. rewrite length_series_add; unfold question, answer; rewrite !length_scale; congruence.
Qed.

(** ** The loop over [models] *)

Lemma elem_of_cost_names name models :
  name ∈ cost_names models <->
  exists m, m ∈ models /\
            (name = question_col m \/ name = answer_col m \/ name = total_col m).
Proof.
  unfold cost_names. rewrite list_elem_of_In, in_flat_map. split.
  - intros (m & Hm & Hn). exists m. split; [by apply list_elem_of_In|].
    simpl in Hn. destruct Hn as [<-|[<-|[<-|[]]]]; auto.
  - intros (m & Hm & Hn). exists m. split; [by apply list_elem_of_In|].
    simpl. destruct Hn as [-> | [-> | ->]]; auto.
Qed.

Lemma default_cols_no_clash models :
  (default_sent_col ∉ cost_names models) /\ (default_received_col ∉ cost_names models).
Proof.
  split; intros H; apply elem_of_cost_names in H as (m & _ & [H|[H|H]]);
    unfold question_col, answer_col, total_col in H; simpl in H; discriminate.
Qed.

Lemma for_each_cons {A S} (body : S -> A -> result S) x xs s :
  for_each body (x :: xs) s = (s' ← body s x; for_each body xs s').
Proof. reflexivity. Qed.

Lemma add_name_prefix names name : names `prefix_of` add_name names name.
Proof.
  unfold add_name. case_decide; [done|]. by apply prefix_app_r.
Qed.

Lemma fold_add_name_prefix xs names : names `prefix_of` fold_left add_name xs names.
Proof.
  revert names. induction xs as [|x xs IH]; intros names; simpl; [done|].
  etrans; [apply add_name_prefix | apply IH].
Qed.

Lemma add_name_NoDup names name : NoDup names -> NoDup (add_name names name).
Proof.
  intros H. unfold add_name. case_decide as E; [done|].
  apply NoDup_app. split; [done|]. split; [|apply NoDup_singleton].
  intros x Hx ->%list_elem_of_singleton. done.
Qed.

Lemma fold_add_name_NoDup xs names : NoDup names -> NoDup (fold_left add_name xs names).
Proof.
  revert names. induction xs as [|x xs IH]; intros names H; simpl; [done|].
  by apply IH, add_name_NoDup.
Qed.

(** What the call computes when every requested model has exactly one pricing
    entry and the token columns are not themselves cost columns. *)
Lemma calculate_total_cost_spec (sent received sent_rates rec_rates : Series) models :
  wf_pricing p ->
  lookup_col cost_sent (price_columns p) = Some sent_rates ->
  lookup_col cost_rec (price_columns p) = Some rec_rates ->
  (forall m, m ∈ models -> entries p m = 1) ->
  sent_col ∉ cost_names models -> rec_col ∉ cost_names models ->
  forall df,
    wf df ->
    lookup_col sent_col (columns df) = Some sent ->
    lookup_col rec_col (columns df) = Some received ->
    exists out,
      calculate_total_cost df p models cost_sent cost_rec sent_col rec_col = Ok out /\
      wf out /\ index out = index df /\
      column_names out = fold_left add_name (cost_names models) (column_names df) /\
      (forall name, name ∉ cost_names models ->
                    lookup_col name (columns out) = lookup_col name (columns df)) /\
      (forall m, m ∈ models -> has_costs out p cost_sent cost_rec sent received m).
Proof.
  intros Hwfp Hcs Hcr. unfold calculate_total_cost.
  induction models as [|m models IH]; intros Hone Hsn Hrn df Hwf Hs Hr.
  - exists df. split; [done|]. split; [done|]. split; [done|]. split; [done|].
    split; [done|]. intros m' Hm. by apply elem_of_nil in Hm.
  - assert (Hsm : forall x, x = question_col m \/ x = answer_col m \/ x = total_col m ->
                            x ∈ cost_names (m :: models)).
    { intros x Hx. apply elem_of_cost_names. exists m. split; [apply list_elem_of_here | done]. }
    assert (Hrest : forall x, x ∈ cost_names models -> x ∈ cost_names (m :: models)).
    { intros x (m' & Hm' & Hx)%elem_of_cost_names. apply elem_of_cost_names.
      exists m'. split; [by apply list_elem_of_further | done]. }
    rewrite for_each_cons.
    rewrite (cost_columns_Ok _ _ sent received sent_rates rec_rates);
      try done; [| by apply Hone, list_elem_of_here | intros ->; apply Hrn, Hsm; auto ].
    rewrite bind_Ok.
    set (question := scale (rate p m cost_sent) sent).
    set (answer := scale (rate p m cost_rec) received).
    set (df' := {| index := index df; columns := _ |}).
    assert (Hlook : forall name,
               lookup_col name (columns df') =
               if decide (total_col m = name) then Some (series_add question answer)
               else if decide (answer_col m = name) then Some answer
               else if decide (question_col m = name) then Some question
               else lookup_col name (columns df)).
    { intros name. unfold df'. cbn [columns]. by rewrite !lookup_col_set_col. }
    assert (Hwf' : wf df').
    { pose proof (lookup_col_length _ _ _ Hwf Hs) as Hls.
      pose proof (lookup_col_length _ _ _ Hwf Hr) as Hlr.
      unfold wf, df'. cbn [columns index].
      repeat apply set_col_wf; try done; unfold question, answer.
      - rewrite length_series_add; rewrite !length_scale; congruence.
      - by rewrite length_scale.
      - by rewrite length_scale. }
    destruct (IH (fun x Hx => Hone x (list_elem_of_further _ _ _ Hx))
                 (fun Hx => Hsn (Hrest _ Hx)) (fun Hx => Hrn (Hrest _ Hx)) df' Hwf')
      as (out & Hout & Hwfo & Hio & Hnames & Hkeep & Hcosts).
    { rewrite Hlook. rewrite !decide_False; [done | | |]; intros E; apply Hsn, Hsm; auto. }
    { rewrite Hlook. rewrite !decide_False; [done | | |]; intros E; apply Hrn, Hsm; auto. }
    exists out. split; [done|]. split; [done|]. split; [done|]. split; [|split].
    + rewrite Hnames. unfold df', column_names. cbn [columns cost_names flat_map].
      rewrite !set_col_names. reflexivity.
    + intros name Hname. rewrite Hkeep by (intros Hx; apply Hname, Hrest, Hx).
      rewrite Hlook. rewrite !decide_False; [done | | |]; intros E; apply Hname, Hsm; auto.
    + intros m' [-> | Hm']%elem_of_cons; [|by apply Hcosts].
      destruct (decide (m ∈ models)) as [Hin|Hnin]; [by apply Hcosts|].
      assert (Hfresh : forall x, x = question_col m \/ x = answer_col m \/ x = total_col m ->
                                 x ∉ cost_names models).
      { intros x Hx (m' & Hm' & Hx')%elem_of_cost_names. apply Hnin.
        destruct Hx as [-> | [-> | ->]], Hx' as [E|[E|E]];
          first [ apply question_col_inj in E | apply answer_col_inj in E
                | apply total_col_inj in E | exfalso; revert E; 
                  first [ apply question_answer_ne | apply question_total_ne
                        | apply answer_total_ne
                        | apply not_eq_sym, question_answer_ne
                        | apply not_eq_sym, question_total_ne
                        | apply not_eq_sym, answer_total_ne ] ];
          by subst. }
      unfold has_costs. fold question answer.
      rewrite !Hkeep by (apply Hfresh; auto). rewrite !Hlook.
      split; [|split].
      * rewrite decide_False by (apply not_eq_sym, question_total_ne).
        rewrite decide_False by (apply not_eq_sym, question_answer_ne).
        by rewrite decide_True.
      * rewrite decide_False by (apply not_eq_sym, answer_total_ne).
        by rewrite decide_True.
      * by rewrite decide_True.
Qed.

End Iteration.

(** ** The cost attributor: statements *)

Lemma cell_lookup df name c i :
  lookup_col name (columns df) = Some c -> cell df name i = c !! i.
Proof. unfold cell. by intros ->. Qed.

Lemma cell_eq df name i (x : Qc) :
  this <$> cell df name i = Some (this x) -> cell df name i = Some x.
Proof.
  destruct (cell df name i) as [y|]; simpl; [|done].
  intros [= H]. f_equal. apply Qc_is_canon. rewrite H. reflexivity.
Qed.

Lemma has_costs_cells out p cost_sent cost_rec (sent received : Series) m i s r :
  has_costs out p cost_sent cost_rec sent received m ->
  sent !! i = Some s -> received !! i = Some r ->
  cell out (question_col m) i = Some (s * rate p m cost_sent)%Qc /\
  cell out (answer_col m) i = Some (r * rate p m cost_rec)%Qc /\
  cell out (total_col m) i = Some (s * rate p m cost_sent + r * rate p m cost_rec)%Qc.
Proof.
  intros (Hq & Ha & Ht) Hs Hr.
  rewrite (cell_lookup _ _ _ _ Hq), (cell_lookup _ _ _ _ Ha), (cell_lookup _ _ _ _ Ht).
  unfold series_add, scale. rewrite lookup_zip_with, !lookup_map, Hs, Hr. done.
Qed.

Lemma Machine_np_mul_scalar (a : list Machine.float) (y : Machine.float) :
  Machine.np_mul a [y] = Ok (map (fun x => Machine.mul x y) a).
Proof.
  unfold Machine.np_mul. destruct (Nat.eqb_spec (length a) (length [y])) as [H|H]; [|done].
  destruct a as [|x [|x' a]]; try done.
Qed.


Lemma wf_example_costs : wf example_costs.
Proof. repeat constructor. Qed.

Lemma wf_example_llms : wf_pricing example_llms.
Proof. repeat constructor. Qed.



(** C4, as amended: when some requested model has a number of pricing
    entries that is neither one nor the number of rows of the scenario table
    (in particular: no entry at all, for a table with at least one row), the
    call raises and returns no table. *)
Theorem calculate_total_cost_raises df_costs df_llms models cost_sent cost_rec
    sent_col rec_col m :
  wf df_costs -> wf_pricing df_llms ->
  m ∈ models ->
  entries df_llms m <> 1 -> entries df_llms m <> index df_costs ->
  raises (calculate_total_cost df_costs df_llms models cost_sent cost_rec sent_col rec_col).
Proof.
  intros Hwf Hwfp Hm H1 Hn. unfold calculate_total_cost.
  revert df_costs Hwf Hn. induction models as [|m0 models IH]; intros df Hwf Hn.
  - by apply elem_of_nil in Hm.
  - rewrite for_each_cons.
    destruct (cost_columns df_llms cost_sent cost_rec sent_col rec_col df m0)
      as [df'|e] eqn:E; [|by exists e].
    rewrite bind_Ok.
    apply elem_of_cons in Hm as [-> | Hm].
    + pose proof (cost_columns_raises df_llms cost_sent cost_rec sent_col rec_col
                    df m0 Hwf Hwfp H1 Hn) as [e He]. congruence.
    + apply (cost_columns_wf _ _ _ _ _ _ _ _ Hwf) in E as [Hwf' Hi].
      apply IH; [done | done | congruence].
Qed.

Lemma calculate_total_cost_raises_witness :
  raises (calculate_total_cost example_costs example_llms ["A"; "B"] "cost_sent" "cost_rec"
            default_sent_col default_received_col).
Proof.
  apply (calculate_total_cost_raises example_costs example_llms ["A"; "B"]
           "cost_sent" "cost_rec" default_sent_col default_received_col "B").
  - exact wf_example_costs.
  - exact wf_example_llms.
  - apply list_elem_of_further, list_elem_of_here.
  - vm_compute. discriminate.
  - vm_compute. discriminate.
Defined.

(** C4, counterexample: model A has two pricing entries and the scenario
    table has two rows: the call returns a table, row [i] priced with entry
    [i]; and model B has no entry while the scenario table has no rows: the
    call returns a table as well. *)
Lemma calculate_total_cost_accepts_bad_entries :
  (entries duplicated_llms "A" = 2 /\
   exists out,
     calculate_total_cost two_rows duplicated_llms ["A"] "cost_sent" "cost_rec"
       default_sent_col default_received_col = Ok out /\
     cell out (total_col "A") 0 = Some (of_Z 100) /\
     cell out (total_col "A") 1 = Some (of_Z 200)) /\
  (entries example_llms "B" = 0 /\
   exists out,
     calculate_total_cost no_rows example_llms ["B"] "cost_sent" "cost_rec"
       default_sent_col default_received_col = Ok out /\
     index out = 0).
Proof.
  split; (split; [reflexivity|]).
  - eexists. split; [vm_compute; reflexivity|].
    split; apply cell_eq; vm_compute; reflexivity.
  - eexists. split; [vm_compute; reflexivity|]. reflexivity.
Qed.

(** C8, as amended: a scenario table that already has a column with the name
    of a cost column of a requested model is accepted like any other: the call
    returns, the columns of the input keep their names and places, no second
    column of that name appears, and the column holds the computed cost in
    the place of its former content (for token columns that are not cost
    columns themselves and one pricing entry per requested model). *)
Theorem calculate_total_cost_overwrites df_costs df_llms models cost_sent cost_rec
    sent_col rec_col (sent received sent_rates rec_rates old : Series) m name :
  wf df_costs -> wf_pricing df_llms ->
  lookup_col sent_col (columns df_costs) = Some sent ->
  lookup_col rec_col (columns df_costs) = Some received ->
  lookup_col cost_sent (price_columns df_llms) = Some sent_rates ->
  lookup_col cost_rec (price_columns df_llms) = Some rec_rates ->
  (forall m', m' ∈ models -> entries df_llms m' = 1) ->
  sent_col ∉ cost_names models -> rec_col ∉ cost_names models ->
  m ∈ models ->
  name ∈ [question_col m; answer_col m; total_col m] ->
  lookup_col name (columns df_costs) = Some old ->
  exists out,
    calculate_total_cost df_costs df_llms models cost_sent cost_rec sent_col rec_col
      = Ok out /\
    column_names df_costs `prefix_of` column_names out /\
    (NoDup (column_names df_costs) -> NoDup (column_names out)) /\
    lookup_col name (columns out) =
      Some (cost_column df_llms cost_sent cost_rec sent received m name).
Proof.
  intros Hwf Hwfp Hs Hr Hcs Hcr Hone Hsn Hrn Hm Hname _.
  destruct (calculate_total_cost_spec df_llms cost_sent cost_rec sent_col rec_col
              sent received sent_rates rec_rates models Hwfp Hcs Hcr Hone Hsn Hrn
              df_costs Hwf Hs Hr)
    as (out & Hout & _ & _ & Hnames & _ & Hcosts).
  exists out. split; [done|]. rewrite Hnames. split; [apply fold_add_name_prefix|].
  split; [apply fold_add_name_NoDup|].
  destruct (Hcosts m Hm) as (Hq & Ha & Ht). unfold cost_column.
  apply elem_of_cons in Hname as [-> | Hname].
  { by rewrite decide_True. }
  apply elem_of_cons in Hname as [-> | Hname].
  { rewrite decide_False by (apply not_eq_sym, question_answer_ne). by rewrite decide_True. }
  apply list_elem_of_singleton in Hname as ->.
  rewrite decide_False by (apply not_eq_sym, question_total_ne).
  by rewrite decide_False by (apply not_eq_sym, answer_total_ne).
Qed.

Lemma wf_colliding_costs : wf colliding_costs.
Proof. repeat constructor. Qed.

Lemma calculate_total_cost_overwrites_witness :
  exists out,
    calculate_total_cost colliding_costs example_llms ["A"] "cost_sent" "cost_rec"
      default_sent_col default_received_col = Ok out /\
    column_names colliding_costs `prefix_of` column_names out /\
    (NoDup (column_names colliding_costs) -> NoDup (column_names out)) /\
    lookup_col (total_col "A") (columns out) =
      Some (cost_column example_llms "cost_sent" "cost_rec"
              [decimal 266 100] [decimal 532 100] "A" (total_col "A")).
Proof.
  apply (calculate_total_cost_overwrites colliding_costs example_llms ["A"]
           "cost_sent" "cost_rec" default_sent_col default_received_col
           [decimal 266 100] [decimal 532 100] [decimal 1 100] [decimal 15 1000]
           [of_Z 999] "A" (total_col "A")).
  - exact wf_colliding_costs.
  - exact wf_example_llms.
  - reflexivity.
  - reflexivity.
  - reflexivity.
  - reflexivity.
  - intros m Hm. apply list_elem_of_singleton in Hm. subst m. reflexivity.
  - apply default_cols_no_clash.
  - apply default_cols_no_clash.
  - apply list_elem_of_here.
  - do 2 apply list_elem_of_further. apply list_elem_of_here.
  - reflexivity.
Defined.

(** C8, counterexample: the scenario table already has a column
    [Total cost A (USD)] holding 999; the call for model A raises nothing and
    returns a table in which that column, still in second place, holds the
    computed total 0.1064. *)
Lemma calculate_total_cost_collision_accepted :
  total_col "A" ∈ column_names colliding_costs /\
  cell colliding_costs (total_col "A") 0 = Some (of_Z 999) /\
  exists out,
    calculate_total_cost colliding_costs example_llms ["A"] "cost_sent" "cost_rec"
      default_sent_col default_received_col = Ok out /\
    column_names out =
      ["m_tokens_sent"; "Total cost A (USD)"; "m_tokens_received";
       "Question cost A (USD)"; "Answer cost A (USD)"] /\
    cell out (total_col "A") 0 = Some (decimal 1064 10000).
Proof.
  split; [apply list_elem_of_further, list_elem_of_here|].
  split; [reflexivity|].
  eexists. split; [vm_compute; reflexivity|].
  split; [reflexivity|]. apply cell_eq. vm_compute. reflexivity.
Qed.

(** ** The object store: the caller's tables are left alone *)

Lemma run_bind {A B} (m : Store.M A) (k : A -> Store.M B) (h : Store.heap) :
  (m ≫= k) h = match m h with
               | (Ok a, h') => k a h'
               | (Raise e, h') => (Raise e, h')
               end.
Proof. reflexivity. Qed.

Section Frame.

(** The number of objects that were in the store before the call. *)
Variable n : nat.

Lemma preserves_ret {A} (a : A) : preserves n (mret a : Store.M A).
Proof. intros h Hn. done. Qed.

Lemma preserves_lift {A} (r : result A) : preserves n (Store.lift r).
Proof. intros h Hn. done. Qed.

Lemma preserves_bind {A B} (m : Store.M A) (k : A -> Store.M B) :
  preserves n m -> (forall a, preserves n (k a)) -> preserves n (m ≫= k).
Proof.
  intros Hm Hk h Hn. rewrite run_bind. specialize (Hm h Hn).
  destruct (m h) as [[a|e] h']; simpl in Hm; [|done].
  destruct Hm as [Ht Hl]. destruct (Hk a h' Hl) as [Ht' Hl']. split; [congruence | done].
Qed.

Lemma preserves_alloc o : preserves n (Store.alloc o).
Proof.
  intros h Hn. unfold Store.alloc. simpl. split.
  - by rewrite take_app_le.
  - rewrite length_app. lia.
Qed.

Lemma preserves_read_table r : preserves n (Store.read_table r).
Proof.
  intros h Hn. unfold Store.read_table.
  destruct (h !! r) as [[d|p]|]; simpl; split; done.
Qed.

Lemma preserves_read_pricing r : preserves n (Store.read_pricing r).
Proof.
  intros h Hn. unfold Store.read_pricing.
  destruct (h !! r) as [[d|p]|]; simpl; split; done.
Qed.

Lemma preserves_write_table r d : n <= r -> preserves n (Store.write_table r d).
Proof.
  intros Hr h Hn. unfold Store.write_table. simpl. split.
  - by apply take_insert_ge.
  - by rewrite length_insert.
Qed.

Lemma preserves_getitem r name : preserves n (Store.getitem r name).
Proof.
  apply preserves_bind; [apply preserves_read_table | intros; apply preserves_lift].
Qed.

Lemma preserves_loc r model col : preserves n (Store.loc r model col).
Proof.
  apply preserves_bind; [apply preserves_read_pricing | intros; apply preserves_lift].
Qed.

Lemma preserves_setitem r name v : n <= r -> preserves n (Store.setitem r name v).
Proof.
  intros Hr. apply preserves_bind; [apply preserves_read_table | intros d].
  apply preserves_bind; [apply preserves_lift | intros d'].
  by apply preserves_write_table.
Qed.

Lemma preserves_cost_columns df_llms cost_sent cost_rec sent_col rec_col df_costs model :
  n <= df_costs ->
  preserves n (Store.cost_columns df_llms cost_sent cost_rec sent_col rec_col df_costs model).
Proof.
  intros Hr. unfold Store.cost_columns.
  repeat first
    [ apply preserves_getitem | apply preserves_loc | apply preserves_lift
    | by apply preserves_setitem
    | apply preserves_bind; [|intros ?] ].
Qed.

Lemma preserves_for_each {A} (body : A -> Store.M unit) xs :
  (forall x, preserves n (body x)) -> preserves n (Store.for_each body xs).
Proof.
  intros Hb. induction xs as [|x xs IH]; simpl.
  - apply preserves_ret.
  - apply preserves_bind; [apply Hb | intros _; apply IH].
Qed.

End Frame.

(** ** The object store: the same result as on table values *)

Lemma run_getitem h r d name :
  h !! r = Some (Store.Table d) -> Store.getitem r name h = (getitem d name, h).
Proof.
  intros H. unfold Store.getitem. rewrite run_bind. unfold Store.read_table. by rewrite H.
Qed.

Lemma run_loc h r p model col :
  h !! r = Some (Store.Pricing p) ->
  Store.loc r model col h = (loc p (model_mask p model) col, h).
Proof.
  intros H. unfold Store.loc. rewrite run_bind. unfold Store.read_pricing. by rewrite H.
Qed.

Lemma run_setitem h r d name v :
  h !! r = Some (Store.Table d) ->
  Store.setitem r name v h =
  match setitem d name v with
  | Ok d' => (Ok tt, <[r := Store.Table d']> h)
  | Raise e => (Raise e, h)
  end.
Proof.
  intros H. unfold Store.setitem. rewrite run_bind. unfold Store.read_table. rewrite H.
  rewrite run_bind. unfold Store.lift. by destruct (setitem d name v).
Qed.

Lemma run_lift {A B} (r : result A) (k : A -> Store.M B) h :
  (Store.lift r ≫= k) h = match r with Ok a => k a h | Raise e => (Raise e, h) end.
Proof. rewrite run_bind. unfold Store.lift. by destruct r. Qed.

Lemma run_cost_columns h rc rl d p cost_sent cost_rec sent_col rec_col model :
  h !! rc = Some (Store.Table d) -> h !! rl = Some (Store.Pricing p) -> rc <> rl ->
  exists d'',
    Store.cost_columns rl cost_sent cost_rec sent_col rec_col rc model h =
      ((fun _ => tt) <$> cost_columns p cost_sent cost_rec sent_col rec_col d model,
       <[rc := Store.Table d'']> h) /\
    (forall d', cost_columns p cost_sent cost_rec sent_col rec_col d model = Ok d' ->
                d'' = d').
Proof.
  intros Hc Hl Hne. pose proof (lookup_lt_Some _ _ _ Hc) as Hlt.
  unfold Store.cost_columns, cost_columns.
  rewrite run_bind, (run_getitem _ _ d) by done.
  destruct (getitem d sent_col) as [sent|e];
    [rewrite bind_Ok | exists d; rewrite list_insert_id by done; by split].
  rewrite run_bind, (run_loc _ _ p) by done.
  destruct (loc p (model_mask p model) cost_sent) as [r1|e];
    [rewrite bind_Ok | exists d; rewrite list_insert_id by done; by split].
  rewrite run_lift.
  destruct (np_mul sent r1) as [v1|e];
    [rewrite bind_Ok | exists d; rewrite list_insert_id by done; by split].
  rewrite run_bind, (run_setitem _ _ d) by done.
  destruct (setitem d (question_col model) v1) as [d1|e];
    [rewrite bind_Ok | exists d; rewrite list_insert_id by done; by split].
  set (h1 := <[rc := Store.Table d1]> h).
  assert (Hc1 : h1 !! rc = Some (Store.Table d1)) by (by apply list_lookup_insert_eq).
  assert (Hl1 : h1 !! rl = Some (Store.Pricing p))
    by (unfold h1; by rewrite list_lookup_insert_ne).
  rewrite run_bind, (run_getitem _ _ d1) by done.
  destruct (getitem d1 rec_col) as [received|e]; [rewrite bind_Ok | exists d1; by split].
  rewrite run_bind, (run_loc _ _ p) by done.
  destruct (loc p (model_mask p model) cost_rec) as [r2|e];
    [rewrite bind_Ok | exists d1; by split].
  rewrite run_lift.
  destruct (np_mul received r2) as [v2|e]; [rewrite bind_Ok | exists d1; by split].
  rewrite run_bind, (run_setitem _ _ d1) by done.
  destruct (setitem d1 (answer_col model) v2) as [d2|e];
    [rewrite bind_Ok | exists d1; by split].
  unfold h1. rewrite list_insert_insert_eq.
  set (h2 := <[rc := Store.Table d2]> h).
  assert (Hc2 : h2 !! rc = Some (Store.Table d2)) by (by apply list_lookup_insert_eq).
  rewrite run_bind, (run_getitem _ _ d2) by done.
  destruct (getitem d2 (question_col model)) as [qc|e];
    [rewrite bind_Ok | exists d2; by split].
  rewrite run_bind, (run_getitem _ _ d2) by done.
  destruct (getitem d2 (answer_col model)) as [ac|e];
    [rewrite bind_Ok | exists d2; by split].
  rewrite (run_setitem _ _ d2) by done.
  destruct (setitem d2 (total_col model) (series_add qc ac)) as [d3|e];
    [| exists d2; by split].
  exists d3. unfold h2. rewrite list_insert_insert_eq. split; [done|]. by intros d' [= ->].
Qed.

Lemma run_for_each h rc rl d p cost_sent cost_rec sent_col rec_col models :
  h !! rc = Some (Store.Table d) -> h !! rl = Some (Store.Pricing p) -> rc <> rl ->
  exists d'',
    Store.for_each (Store.cost_columns rl cost_sent cost_rec sent_col rec_col rc) models h =
      ((fun _ => tt) <$>
         for_each (cost_columns p cost_sent cost_rec sent_col rec_col) models d,
       <[rc := Store.Table d'']> h) /\
    (forall d', for_each (cost_columns p cost_sent cost_rec sent_col rec_col) models d
                = Ok d' -> d'' = d').
Proof.
  revert h d. induction models as [|m models IH]; intros h d Hc Hl Hne.
  - exists d. rewrite list_insert_id by done. split; [done|]. by intros d' [= ->].
  - pose proof (lookup_lt_Some _ _ _ Hc) as Hlt.
    destruct (run_cost_columns h rc rl d p cost_sent cost_rec sent_col rec_col m Hc Hl Hne)
      as (d1 & Hrun & Hd1).
    cbn [Store.for_each for_each]. rewrite run_bind, Hrun.
    destruct (cost_columns p cost_sent cost_rec sent_col rec_col d m) as [d1'|e].
    + rewrite (Hd1 d1' eq_refl). cbn [fmap result_fmap]. rewrite bind_Ok.
      destruct (IH (<[rc := Store.Table d1']> h) d1') as (d2 & Hrun2 & Hd2).
      * by apply list_lookup_insert_eq.
      * by rewrite list_lookup_insert_ne.
      * done.
      * exists d2. rewrite Hrun2, list_insert_insert_eq. done.
    + exists d1. split; [done|]. intros d' [=].
Qed.

Lemma run_copy_table h r :
  Store.copy_table r h =
  match h !! r with
  | Some (Store.Table d) => (Ok (length h), h ++ [Store.Table d])
  | _ => (Raise TypeError, h)
  end.
Proof.
  unfold Store.copy_table. rewrite run_bind. unfold Store.read_table.
  by destruct (h !! r) as [[d|p]|].
Qed.

Lemma run_copy_pricing h r :
  Store.copy_pricing r h =
  match h !! r with
  | Some (Store.Pricing p) => (Ok (length h), h ++ [Store.Pricing p])
  | _ => (Raise TypeError, h)
  end.
Proof.
  unfold Store.copy_pricing. rewrite run_bind. unfold Store.read_pricing.
  by destruct (h !! r) as [[d|p]|].
Qed.

Lemma run_calculate_total_cost h df_costs df_llms d p models
    cost_sent cost_rec sent_col rec_col :
  h !! df_costs = Some (Store.Table d) -> h !! df_llms = Some (Store.Pricing p) ->
  exists d'',
    Store.calculate_total_cost df_costs df_llms models cost_sent cost_rec sent_col rec_col h =
      ((fun _ => length h) <$>
         calculate_total_cost d p models cost_sent cost_rec sent_col rec_col,
       h ++ [Store.Table d''; Store.Pricing p]) /\
    (forall d', calculate_total_cost d p models cost_sent cost_rec sent_col rec_col = Ok d' ->
                d'' = d').
Proof.
  intros Hc Hl. unfold Store.calculate_total_cost, calculate_total_cost.
  pose proof (lookup_lt_Some _ _ _ Hc) as Hltc.
  pose proof (lookup_lt_Some _ _ _ Hl) as Hltl.
  rewrite run_bind, run_copy_table, Hc.
  rewrite run_bind, run_copy_pricing, lookup_app_l, Hl by done.
  rewrite run_bind.
  set (h2 := (h ++ [Store.Table d]) ++ [Store.Pricing p]).
  assert (Hc2 : h2 !! length h = Some (Store.Table d)).
  { unfold h2. rewrite <- app_assoc.
    by apply (list_lookup_middle h [Store.Pricing p] (Store.Table d)). }
  assert (Hl2 : h2 !! length (h ++ [Store.Table d]) = Some (Store.Pricing p)).
  { unfold h2. by apply (list_lookup_middle (h ++ [Store.Table d]) [] (Store.Pricing p)). }
  destruct (run_for_each h2 (length h) (length (h ++ [Store.Table d])) d p
              cost_sent cost_rec sent_col rec_col models Hc2 Hl2)
    as (d'' & Hrun & Hd'').
  { rewrite length_app. simpl. lia. }
  rewrite Hrun. exists d''. split; [|done].
  assert (Hins : <[length h := Store.Table d'']> h2 = h ++ [Store.Table d''; Store.Pricing p]).
  { unfold h2. rewrite <- app_assoc. simpl.
    rewrite insert_app_r_alt by done. by rewrite Nat.sub_diag. }
  rewrite Hins.
  by destruct (for_each (cost_columns p cost_sent cost_rec sent_col rec_col) models d).
Qed.

(** On tables found in the store, the call returns what
    [calculate_total_cost] computes from their values, stored at a new
    address. *)
Lemma store_calculate_total_cost h df_costs df_llms d p models
    cost_sent cost_rec sent_col rec_col :
  h !! df_costs = Some (Store.Table d) -> h !! df_llms = Some (Store.Pricing p) ->
  let run := Store.calculate_total_cost df_costs df_llms models
               cost_sent cost_rec sent_col rec_col h in
  run.1 = (fun _ => length h) <$>
            calculate_total_cost d p models cost_sent cost_rec sent_col rec_col /\
  (forall d', calculate_total_cost d p models cost_sent cost_rec sent_col rec_col = Ok d' ->
              run.2 = h ++ [Store.Table d'; Store.Pricing p]).
Proof.
  intros Hc Hl run. subst run.
  destruct (run_calculate_total_cost h df_costs df_llms d p models
              cost_sent cost_rec sent_col rec_col Hc Hl) as (d'' & -> & Hd'').
  split; [done|]. intros d' Hd'. by rewrite (Hd'' d' Hd').
Qed.

Lemma preserves_calculate_total_cost (h : Store.heap) df_costs df_llms models
    cost_sent cost_rec sent_col rec_col :
  preserves (length h)
    (Store.calculate_total_cost df_costs df_llms models cost_sent cost_rec sent_col rec_col).
Proof.
  unfold Store.calculate_total_cost.
  intros h' Hh'. rewrite run_bind, run_copy_table.
  destruct (h' !! df_costs) as [[d|p]|]; [|done..].
  assert (H1 : length h <= length (h' ++ [Store.Table d])) by (rewrite length_app; lia).
  assert (Ht1 : take (length h) (h' ++ [Store.Table d]) = take (length h) h')
    by (by rewrite take_app_le).
  rewrite run_bind, run_copy_pricing.
  destruct ((h' ++ [Store.Table d]) !! df_llms) as [[d0|p]|]; [done| |done].
  set (h2 := (h' ++ [Store.Table d]) ++ [Store.Pricing p]).
  assert (H2 : length h <= length h2) by (unfold h2; rewrite length_app; lia).
  assert (Ht2 : take (length h) h2 = take (length h) h')
    by (unfold h2; by rewrite take_app_le).
  assert (Hloop : preserves (length h)
            (Store.for_each
               (Store.cost_columns (length (h' ++ [Store.Table d])) cost_sent cost_rec
                  sent_col rec_col (length h')) models ≫= λ _ : (), mret (length h'))).
  { apply preserves_bind; [|intros; apply preserves_ret].
    apply preserves_for_each. intros m. by apply preserves_cost_columns. }
  destruct (Hloop h2 H2) as [Ht Hl]. split; [congruence | done].
Qed.

(** Every address in use before the call holds the same object after it,
    whatever the arguments refer to. *)
Lemma calculate_total_cost_keeps_store (h : Store.heap) df_costs df_llms models
    cost_sent cost_rec sent_col rec_col r :
  r < length h ->
  (Store.calculate_total_cost df_costs df_llms models
     cost_sent cost_rec sent_col rec_col h).2 !! r = h !! r.
Proof.
  intros Hr.
  destruct (preserves_calculate_total_cost h df_costs df_llms models
              cost_sent cost_rec sent_col rec_col h) as [Ht _]; [done|].
  rewrite firstn_all in Ht. rewrite <- Ht at 2. by rewrite lookup_take_lt.
Qed.

(** C6: called on a scenario table and a pricing table of the caller, the
    function changes none of the objects that were in the store before the
    call: both input tables have the contents they had, and the table that is
    returned, holding what [calculate_total_cost] computes from the inputs,
    lives at an address that was not in use before. *)
Theorem calculate_total_cost_keeps_inputs (h : Store.heap) df_costs df_llms d p models
    cost_sent cost_rec sent_col rec_col :
  h !! df_costs = Some (Store.Table d) ->
  h !! df_llms = Some (Store.Pricing p) ->
  let run := Store.calculate_total_cost df_costs df_llms models
               cost_sent cost_rec sent_col rec_col h in
  take (length h) run.2 = h /\
  run.2 !! df_costs = Some (Store.Table d) /\
  run.2 !! df_llms = Some (Store.Pricing p) /\
  match run.1 with
  | Ok out =>
      h !! out = None /\
      exists d', calculate_total_cost d p models cost_sent cost_rec sent_col rec_col = Ok d' /\
                 run.2 !! out = Some (Store.Table d')
  | Raise e =>
      calculate_total_cost d p models cost_sent cost_rec sent_col rec_col = Raise e
  end.
Proof.
  intros Hc Hl run. subst run.
  pose proof (lookup_lt_Some _ _ _ Hc) as Hltc.
  pose proof (lookup_lt_Some _ _ _ Hl) as Hltl.
  destruct (run_calculate_total_cost h df_costs df_llms d p models
              cost_sent cost_rec sent_col rec_col Hc Hl) as (d'' & -> & Hd'').
  cbn [fst snd]. rewrite take_app_length, !lookup_app_l by done.
  split; [done|]. split; [done|]. split; [done|].
  destruct (calculate_total_cost d p models cost_sent cost_rec sent_col rec_col) as [d'|e];
    cbn [fmap result_fmap]; [|done].
  split; [by apply lookup_ge_None_2|].
  exists d'. split; [done|]. rewrite (Hd'' d' eq_refl).
  by apply (list_lookup_middle h [Store.Pricing p] (Store.Table d')).
Qed.

Lemma calculate_total_cost_keeps_inputs_witness :
  let h := [Store.Table example_costs; Store.Pricing example_llms] in
  let run := Store.calculate_total_cost 0 1 ["A"] "cost_sent" "cost_rec"
               default_sent_col default_received_col h in
  take (length h) run.2 = h /\
  run.2 !! 0 = Some (Store.Table example_costs) /\
  run.2 !! 1 = Some (Store.Pricing example_llms) /\
  match run.1 with
  | Ok out =>
      h !! out = None /\
      exists d', calculate_total_cost example_costs example_llms ["A"] "cost_sent" "cost_rec"
                   default_sent_col default_received_col = Ok d' /\
                 run.2 !! out = Some (Store.Table d')
  | Raise e =>
      calculate_total_cost example_costs example_llms ["A"] "cost_sent" "cost_rec"
        default_sent_col default_received_col = Raise e
  end.
Proof.
  apply (calculate_total_cost_keeps_inputs
           [Store.Table example_costs; Store.Pricing example_llms] 0 1
           example_costs example_llms ["A"] "cost_sent" "cost_rec"
           default_sent_col default_received_col); reflexivity.
Defined.

(** * Further properties of the scenario table builder *)

Lemma lookup_flat_map_const {A B} (g : A -> list B) (n : nat) (l : list A) i j x y :
  (forall x, length (g x) = n) ->
  l !! i = Some x -> g x !! j = Some y ->
  flat_map g l !! (i * n + j) = Some y.
Proof.
  intros Hg. revert i. induction l as [|x0 l IH]; intros i Hi Hj; [done|].
  destruct i as [|i]; simpl in Hi.
  - injection Hi as ->. simpl. apply lookup_app_l_Some. exact Hj.
  - cbn [flat_map]. rewrite lookup_app_r by (rewrite Hg; lia).
    rewrite Hg. replace (S i * n + j - n) with (i * n + j) by lia. by apply IH.
Qed.

Lemma lookup_map_Some {A B} (f : A -> B) (l : list A) i x :
  l !! i = Some x -> map f l !! i = Some (f x).
Proof. intros H. by rewrite lookup_map, H. Qed.

Lemma loop_rows_lookup e cs qs as_ t i j k c q a :
  cs !! i = Some c -> qs !! j = Some q -> as_ !! k = Some a ->
  loop_rows e cs qs as_ t !! ((i * length qs + j) * length as_ + k)
  = Some (loop_row e t c q a).
Proof.
  intros Hc Hq Ha. unfold loop_rows.
  replace ((i * length qs + j) * length as_ + k)
    with (i * (length as_ * length qs) + (j * length as_ + k)) by lia.
  eapply lookup_flat_map_const; [|exact Hc|].
  - intros c'. apply length_flat_map_const. intros q'. apply length_map.
  - eapply lookup_flat_map_const; [|exact Hq|].
    + intros q'. apply length_map.
    + by apply (lookup_map_Some (fun a => loop_row e t c q a)).
Qed.

Lemma grid_rows_lookup es cs qs as_ ts it ia iq ie ic e c q a t :
  es !! ie = Some e -> cs !! ic = Some c -> qs !! iq = Some q ->
  as_ !! ia = Some a -> ts !! it = Some t ->
  grid_rows es cs qs as_ ts
    !! ((((it * length as_ + ia) * length qs + iq) * length es + ie) * length cs + ic)
  = Some (grid_row e c q a t).
Proof.
  intros He Hc Hq Ha Ht. unfold grid_rows.
  replace ((((it * length as_ + ia) * length qs + iq) * length es + ie) * length cs + ic)
    with (it * (length cs * length es * length qs * length as_)
          + (ia * (length cs * length es * length qs)
             + (iq * (length cs * length es) + (ie * length cs + ic)))) by lia.
  eapply lookup_flat_map_const; [|exact Ht|].
  { intros t'. apply length_flat_map_const. intros a'.
    apply length_flat_map_const. intros q'.
    apply length_flat_map_const. intros e'. apply length_map. }
  eapply lookup_flat_map_const; [|exact Ha|].
  { intros a'. apply length_flat_map_const. intros q'.
    apply length_flat_map_const. intros e'. apply length_map. }
  eapply lookup_flat_map_const; [|exact Hq|].
  { intros q'. apply length_flat_map_const. intros e'. apply length_map. }
  eapply lookup_flat_map_const; [|exact He|].
  { intros e'. apply length_map. }
  by apply (lookup_map_Some (fun c => grid_row e c q a t)).
Qed.

Lemma make_df_cost_loop_nonempty e cs qs as_ t df :
  CostModel.make_df_cost e cs qs as_ t = Ok df -> cs <> [] /\ qs <> [] /\ as_ <> [].
Proof.
  intros Hdf. repeat split; intros ->.
  - assert (H : CostModel.make_df_cost e [] qs as_ t = Raise ValueError)
      by (apply make_df_cost_loop_raises; auto). congruence.
  - assert (H : CostModel.make_df_cost e cs [] as_ t = Raise ValueError)
      by (apply make_df_cost_loop_raises; auto). congruence.
  - assert (H : CostModel.make_df_cost e cs qs [] t = Raise ValueError)
      by (apply make_df_cost_loop_raises; auto). congruence.
Qed.

(** X1: the loop variant raises ValueError exactly when one of [calls],
    [q_length], [a_length] is empty (no row is then computed, and [pd.concat]
    refuses the empty list); a call that returns had three non-empty
    lists. *)
Theorem make_df_cost_loop_error_iff e cs qs as_ t :
  (CostModel.make_df_cost e cs qs as_ t = Raise ValueError
   <-> cs = [] \/ qs = [] \/ as_ = []) /\
  (forall df, CostModel.make_df_cost e cs qs as_ t = Ok df ->
              cs <> [] /\ qs <> [] /\ as_ <> []).
Proof.
  split; [apply make_df_cost_loop_raises|].
  intros df Hdf. by eapply make_df_cost_loop_nonempty.
Qed.

(** X2: in the table of the loop variant the rows follow the nesting of the
    loops, [calls] outermost and [a_length] innermost: the row at position
    [(i * len(q_length) + j) * len(a_length) + k] carries [calls[i]],
    [q_length[j]], [a_length[k]], the two scalars, and the token volumes
    computed with 800. *)
Theorem make_df_cost_loop_row_order e cs qs as_ t i j k c q a :
  cs !! i = Some c -> qs !! j = Some q -> as_ !! k = Some a ->
  exists df,
    CostModel.make_df_cost e cs qs as_ t = Ok df /\
    row_at df ((i * length qs + j) * length as_ + k) =
      Some (mkScenario e c q a t
              (of_Z 800 * c * q * t / Qcpower (of_Z 10) 6)%Qc
              (of_Z 800 * c * a * t / Qcpower (of_Z 10) 6)%Qc).
Proof.
  intros Hc Hq Ha. exists (table_of (loop_rows e cs qs as_ t)). split.
  - apply make_df_cost_loop_Ok; intros ->; done.
  - rewrite row_at_table_of. by apply loop_rows_lookup.
Qed.

Lemma make_df_cost_loop_row_order_witness :
  exists df,
    CostModel.make_df_cost (of_Z 1000) [of_Z 50; of_Z 100] [of_Z 30; of_Z 40]
      [of_Z 70; of_Z 80; of_Z 90] (decimal 133 100) = Ok df /\
    row_at df ((1 * 2 + 0) * 3 + 2) =
      Some (mkScenario (of_Z 1000) (of_Z 100) (of_Z 30) (of_Z 90) (decimal 133 100)
              (of_Z 800 * of_Z 100 * of_Z 30 * decimal 133 100 / Qcpower (of_Z 10) 6)%Qc
              (of_Z 800 * of_Z 100 * of_Z 90 * decimal 133 100 / Qcpower (of_Z 10) 6)%Qc).
Proof.
  apply (make_df_cost_loop_row_order (of_Z 1000) [of_Z 50; of_Z 100] [of_Z 30; of_Z 40]
           [of_Z 70; of_Z 80; of_Z 90] (decimal 133 100) 1 0 2); reflexivity.
Defined.

(** X3: in the table of the meshgrid variant [calls] varies fastest, then
    [employees], [q_length], [a_length], and [tokens_per_word] slowest: the row
    at position [((((it * len(a) + ia) * len(q) + iq) * len(e) + ie) * len(c) + ic]
    carries [employees[ie]], [calls[ic]], [q_length[iq]], [a_length[ia]],
    [tokens_per_word[it]] and the token volumes computed from these. *)
Theorem make_df_cost_grid_row_order es cs qs as_ ts it ia iq ie ic e c q a t :
  es !! ie = Some e -> cs !! ic = Some c -> qs !! iq = Some q ->
  as_ !! ia = Some a -> ts !! it = Some t ->
  exists df,
    Functions.make_df_cost es cs qs as_ ts = Ok df /\
    row_at df
      ((((it * length as_ + ia) * length qs + iq) * length es + ie) * length cs + ic) =
      Some (mkScenario e c q a t
              (e * c * q * t / of_Z 1000000)%Qc (e * c * a * t / of_Z 1000000)%Qc).
Proof.
  intros He Hc Hq Ha Ht. exists (table_of (grid_rows es cs qs as_ ts)). split.
  - apply make_df_cost_grid.
  - rewrite row_at_table_of. by apply grid_rows_lookup.
Qed.

Lemma make_df_cost_grid_row_order_witness :
  exists df,
    Functions.make_df_cost [of_Z 800; of_Z 1000] [of_Z 50; of_Z 100; of_Z 150]
      [of_Z 30; of_Z 40] [of_Z 70] [of_Z 1; decimal 133 100] = Ok df /\
    row_at df ((((1 * 1 + 0) * 2 + 1) * 2 + 0) * 3 + 2) =
      Some (mkScenario (of_Z 800) (of_Z 150) (of_Z 40) (of_Z 70) (decimal 133 100)
              (of_Z 800 * of_Z 150 * of_Z 40 * decimal 133 100 / of_Z 1000000)%Qc
              (of_Z 800 * of_Z 150 * of_Z 70 * decimal 133 100 / of_Z 1000000)%Qc).
Proof.
  apply (make_df_cost_grid_row_order [of_Z 800; of_Z 1000] [of_Z 50; of_Z 100; of_Z 150]
           [of_Z 30; of_Z 40] [of_Z 70] [of_Z 1; decimal 133 100] 1 0 1 0 2); reflexivity.
Defined.

(** X4: the meshgrid variant returns a table for every input, empty arrays
    included: it has the seven scenario columns in order, every column is as
    long as the index, and the number of rows is the product of the five
    array lengths. *)
Theorem make_df_cost_grid_shape es cs qs as_ ts :
  exists df,
    Functions.make_df_cost es cs qs as_ ts = Ok df /\
    column_names df = scenario_columns /\
    wf df /\
    index df = length es * length cs * length qs * length as_ * length ts.
Proof.
  exists (table_of (grid_rows es cs qs as_ ts)).
  split; [apply make_df_cost_grid|]. split; [reflexivity|].
  split; [apply wf_table_of | apply length_grid_rows].
Qed.

(** X5: a table returned by the loop variant has the seven scenario columns
    in order, every column as long as the index, [len(calls) * len(q_length) *
    len(a_length)] rows, and the scalar arguments [employees] and
    [tokens_per_word] repeated on every row. *)
Theorem make_df_cost_loop_shape e cs qs as_ t df :
  CostModel.make_df_cost e cs qs as_ t = Ok df ->
  column_names df = scenario_columns /\
  wf df /\
  index df = length cs * length qs * length as_ /\
  exists rs, records df = Some rs /\ length rs = index df /\
             Forall (fun r => employees r = e /\ tokens_per_word r = t) rs.
Proof.
  intros ->%make_df_cost_loop_inv.
  split; [reflexivity|]. split; [apply wf_table_of|]. split; [apply length_loop_rows|].
  exists (loop_rows e cs qs as_ t). split; [apply records_table_of|]. split; [done|].
  unfold loop_rows. apply List.Forall_forall. intros r Hr.
  apply in_flat_map in Hr as (c & _ & Hr).
  apply in_flat_map in Hr as (q & _ & Hr).
  apply in_map_iff in Hr as (a & <- & _). done.
Qed.

Lemma make_df_cost_loop_shape_witness :
  let df := table_of (loop_rows (of_Z 1000) [of_Z 50; of_Z 100] [of_Z 30]
                        [of_Z 70; of_Z 200] (decimal 133 100)) in
  column_names df = scenario_columns /\
  wf df /\
  index df = 2 * 1 * 2 /\
  exists rs, records df = Some rs /\ length rs = index df /\
             Forall (fun r => employees r = of_Z 1000 /\
                              tokens_per_word r = decimal 133 100) rs.
Proof.
  apply (make_df_cost_loop_shape (of_Z 1000) [of_Z 50; of_Z 100] [of_Z 30]
           [of_Z 70; of_Z 200] (decimal 133 100)).
  reflexivity.
Defined.

(** X6: whatever values the inputs repeat, the parameter tuples of the rows
    are the cartesian product taken position by position: in the loop variant
    in the order of the product (employees, calls, q, a, tokens_per_word), in
    the meshgrid variant up to the order of the rows. *)
Theorem make_df_cost_rows_are_product :
  (forall e cs qs as_ t df,
      CostModel.make_df_cost e cs qs as_ t = Ok df ->
      exists rs, records df = Some rs /\ map params rs = product [e] cs qs as_ [t]) /\
  (forall es cs qs as_ ts,
      exists df rs,
        Functions.make_df_cost es cs qs as_ ts = Ok df /\ records df = Some rs /\
        map params rs ≡ₚ product es cs qs as_ ts).
Proof.
  split.
  - intros e cs qs as_ t df ->%make_df_cost_loop_inv.
    exists (loop_rows e cs qs as_ t). split; [apply records_table_of|].
    apply loop_rows_product.
  - intros es cs qs as_ ts.
    exists (table_of (grid_rows es cs qs as_ ts)), (grid_rows es cs qs as_ ts).
    split; [apply make_df_cost_grid|]. split; [apply records_table_of|].
    apply grid_rows_product.
Qed.

Lemma make_df_cost_rows_are_product_witness :
  exists rs,
    records (table_of (loop_rows (of_Z 800) [of_Z 50; of_Z 50] [of_Z 30]
                         [of_Z 70; of_Z 200] (of_Z 1))) = Some rs /\
    map params rs = product [of_Z 800] [of_Z 50; of_Z 50] [of_Z 30] [of_Z 70; of_Z 200]
                      [of_Z 1].
Proof.
  apply (proj1 make_df_cost_rows_are_product (of_Z 800) [of_Z 50; of_Z 50] [of_Z 30]
           [of_Z 70; of_Z 200] (of_Z 1)).
  reflexivity.
Defined.

Lemma loop_rows_with_employees e e' cs qs as_ t :
  loop_rows e' cs qs as_ t = map (with_employees e') (loop_rows e cs qs as_ t).
Proof.
  unfold loop_rows. rewrite map_flat_map.
  apply flat_map_ext. intros c. rewrite map_flat_map.
  apply flat_map_ext. intros q. rewrite List.map_map.
  apply map_ext. intros a. reflexivity.
Qed.

(** X10: in the loop variant the [employees] argument only labels the rows:
    calling with another value [e'] gives, row by row, the same table with
    [e'] in the [employees] field and both token volumes as they were. *)
Theorem make_df_cost_loop_employees_label_only e e' cs qs as_ t df :
  CostModel.make_df_cost e cs qs as_ t = Ok df ->
  exists df' rs,
    CostModel.make_df_cost e' cs qs as_ t = Ok df' /\
    records df = Some rs /\ records df' = Some (map (with_employees e') rs).
Proof.
  intros Hdf.
  pose proof (make_df_cost_loop_nonempty _ _ _ _ _ _ Hdf) as (Hc & Hq & Ha).
  apply make_df_cost_loop_inv in Hdf as ->.
  exists (table_of (loop_rows e' cs qs as_ t)), (loop_rows e cs qs as_ t).
  split; [by apply make_df_cost_loop_Ok|].
  split; [apply records_table_of|].
  rewrite <- (loop_rows_with_employees e e'). apply records_table_of.
Qed.

Lemma make_df_cost_loop_employees_label_only_witness :
  exists df' rs,
    CostModel.make_df_cost (of_Z 5) [of_Z 50; of_Z 100] [of_Z 30] [of_Z 70]
      (decimal 133 100) = Ok df' /\
    records (table_of (loop_rows (of_Z 800) [of_Z 50; of_Z 100] [of_Z 30] [of_Z 70]
                         (decimal 133 100))) = Some rs /\
    records df' = Some (map (with_employees (of_Z 5)) rs).
Proof.
  apply (make_df_cost_loop_employees_label_only (of_Z 800) (of_Z 5) [of_Z 50; of_Z 100]
           [of_Z 30] [of_Z 70] (decimal 133 100)).
  reflexivity.
Defined.

Lemma concat_two_tables rs1 rs2 :
  concat [table_of rs1; table_of rs2] = Ok (table_of (rs1 ++ rs2)).
Proof.
  unfold concat, table_of. cbn -[Nat.add]. rewrite !app_nil_r, !map_app, length_app.
  by rewrite Nat.add_0_r.
Qed.

(** X12: the loop variant distributes over a split of [calls]: concatenating
    the tables for [calls1] and for [calls2] gives the table for
    [calls1 + calls2]. *)
Theorem make_df_cost_loop_concat e cs1 cs2 qs as_ t d1 d2 :
  CostModel.make_df_cost e cs1 qs as_ t = Ok d1 ->
  CostModel.make_df_cost e cs2 qs as_ t = Ok d2 ->
  CostModel.make_df_cost e (cs1 ++ cs2) qs as_ t = concat [d1; d2].
Proof.
  intros H1 H2.
  pose proof (make_df_cost_loop_nonempty _ _ _ _ _ _ H1) as (Hc & Hq & Ha).
  apply make_df_cost_loop_inv in H1 as ->. apply make_df_cost_loop_inv in H2 as ->.
  rewrite concat_two_tables, make_df_cost_loop_Ok; try done.
  - unfold loop_rows. by rewrite flat_map_app.
  - by destruct cs1.
Qed.

Lemma make_df_cost_loop_concat_witness :
  CostModel.make_df_cost (of_Z 800) ([of_Z 50] ++ [of_Z 100; of_Z 150]) [of_Z 30]
    [of_Z 70] (of_Z 1) =
  concat [table_of (loop_rows (of_Z 800) [of_Z 50] [of_Z 30] [of_Z 70] (of_Z 1));
          table_of (loop_rows (of_Z 800) [of_Z 100; of_Z 150] [of_Z 30] [of_Z 70] (of_Z 1))].
Proof.
  apply (make_df_cost_loop_concat (of_Z 800) [of_Z 50] [of_Z 100; of_Z 150] [of_Z 30]
           [of_Z 70] (of_Z 1)); reflexivity.
Defined.

(** * Further properties of the cost attributor *)

Lemma set_col_id name v cols :
  lookup_col name cols = Some v -> set_col name v cols = cols.
Proof.
  induction cols as [|[n c] cols IH]; simpl; [done|].
  destruct (String.eqb n name) eqn:E.
  - by intros [= ->].
  - intros H. by rewrite IH.
Qed.

Lemma cost_name_fresh m models x :
  m ∉ models ->
  x = question_col m \/ x = answer_col m \/ x = total_col m ->
  x ∉ cost_names models.
Proof.
  intros Hnin Hx (m' & Hm' & Hx')%elem_of_cost_names. apply Hnin.
  destruct Hx as [-> | [-> | ->]], Hx' as [E|[E|E]].
  - apply question_col_inj in E. by subst.
  - by apply question_answer_ne in E.
  - by apply question_total_ne in E.
  - symmetry in E. by apply question_answer_ne in E.
  - apply answer_col_inj in E. by subst.
  - by apply answer_total_ne in E.
  - symmetry in E. by apply question_total_ne in E.
  - symmetry in E. by apply answer_total_ne in E.
  - apply total_col_inj in E. by subst.
Qed.

Lemma cost_names_head m models x :
  x = question_col m \/ x = answer_col m \/ x = total_col m ->
  x ∈ cost_names (m :: models).
Proof.
  intros Hx. apply elem_of_cost_names. exists m. split; [apply list_elem_of_here | done].
Qed.

Lemma cost_names_tail m models x : x ∈ cost_names models -> x ∈ cost_names (m :: models).
Proof.
  intros (m' & Hm' & Hx)%elem_of_cost_names. apply elem_of_cost_names.
  exists m'. split; [by apply list_elem_of_further | done].
Qed.

(** What an iteration that returns has done to the table. *)
Lemma cost_columns_inv p cost_sent cost_rec sent_col rec_col df model df' :
  cost_columns p cost_sent cost_rec sent_col rec_col df model = Ok df' ->
  exists question answer,
    index df' = index df /\
    columns df' = set_col (total_col model) (series_add question answer)
                    (set_col (answer_col model) answer
                       (set_col (question_col model) question (columns df))).
Proof.
  intros H. unfold cost_columns in H.
  apply bind_Ok_inv in H as (sent & _ & H).
  apply bind_Ok_inv in H as (r1 & _ & H).
  apply bind_Ok_inv in H as (v1 & _ & H).
  apply bind_Ok_inv in H as (df1 & H1 & H).
  apply bind_Ok_inv in H as (recv & _ & H).
  apply bind_Ok_inv in H as (r2 & _ & H).
  apply bind_Ok_inv in H as (v2 & _ & H).
  apply bind_Ok_inv in H as (df2 & H2 & H).
  apply bind_Ok_inv in H as (qc & Hq & H).
  apply bind_Ok_inv in H as (ac & Ha & H).
  apply setitem_inv in H1 as (_ & Hi1 & Hc1).
  apply setitem_inv in H2 as (_ & Hi2 & Hc2).
  apply setitem_inv in H as (_ & Hi3 & Hc3).
  apply getitem_inv in Hq, Ha. rewrite Hc2, Hc1 in Hq, Ha.
  rewrite lookup_col_set_col_ne in Hq
    by (intros E; symmetry in E; by apply question_answer_ne in E).
  rewrite lookup_col_set_col_eq in Hq, Ha. injection Hq as <-. injection Ha as <-.
  exists v1, v2. split; [congruence|]. by rewrite Hc3, Hc2, Hc1.
Qed.

(** What a call that returns has done to the table, whatever the pricing
    table holds. *)
Lemma calculate_total_cost_inv p cost_sent cost_rec sent_col rec_col models :
  forall df out,
    calculate_total_cost df p models cost_sent cost_rec sent_col rec_col = Ok out ->
    index out = index df /\
    column_names out = fold_left add_name (cost_names models) (column_names df) /\
    (forall name, name ∉ cost_names models ->
                  lookup_col name (columns out) = lookup_col name (columns df)) /\
    (forall m, m ∈ models -> total_is_sum out m) /\
    (wf df -> wf out).
Proof.
  unfold calculate_total_cost.
  induction models as [|m models IH]; intros df out H.
  - injection H as <-. repeat split; try done. intros m Hm. by apply elem_of_nil in Hm.
  - rewrite for_each_cons in H. apply bind_Ok_inv in H as (df' & Hstep & H).
    destruct (IH df' out H) as (Hi & Hn & Hkeep & Hsum & Hwf).
    pose proof (cost_columns_inv _ _ _ _ _ _ _ _ Hstep) as (q & a & Hi' & Hc').
    assert (Hlook : forall name,
               lookup_col name (columns df') =
               if decide (total_col m = name) then Some (series_add q a)
               else if decide (answer_col m = name) then Some a
               else if decide (question_col m = name) then Some q
               else lookup_col name (columns df)).
    { intros name. rewrite Hc'. by rewrite !lookup_col_set_col. }
    split; [congruence|]. split; [|split; [|split]].
    + rewrite Hn. unfold column_names. rewrite Hc'. cbn [cost_names flat_map].
      rewrite !set_col_names. reflexivity.
    + intros name Hname. rewrite Hkeep by (intros Hx; by apply Hname, cost_names_tail).
      rewrite Hlook. rewrite !decide_False; [done | | |];
        intros E; apply Hname, cost_names_head; auto.
    + intros m' [-> | Hm']%elem_of_cons; [|by apply Hsum].
      destruct (decide (m ∈ models)) as [Hin|Hnin]; [by apply Hsum|].
      exists q, a. rewrite !Hkeep by (apply (cost_name_fresh m); auto). rewrite !Hlook.
      split; [|split].
      * rewrite decide_False by (apply not_eq_sym, question_total_ne).
        rewrite decide_False by (apply not_eq_sym, question_answer_ne).
        by rewrite decide_True.
      * rewrite decide_False by (apply not_eq_sym, answer_total_ne).
        by rewrite decide_True.
      * by rewrite decide_True.
    + intros Hwfd. apply Hwf. by eapply cost_columns_wf.
Qed.

(** X13: as soon as one model is requested, a scenario table without the
    sent-token column, or a pricing table without the sent-rate column (a
    label other than the identifier column ['modell']), makes the call raise
    KeyError; with no model requested nothing is looked up and the table is
    returned as it is. *)
Theorem calculate_total_cost_missing_column df p m ms cost_sent cost_rec sent_col rec_col :
  lookup_col sent_col (columns df) = None \/
  (cost_sent <> "modell" /\ lookup_col cost_sent (price_columns p) = None) ->
  calculate_total_cost df p (m :: ms) cost_sent cost_rec sent_col rec_col = Raise KeyError /\
  calculate_total_cost df p [] cost_sent cost_rec sent_col rec_col = Ok df.
Proof.
  intros H. split; [|reflexivity].
  unfold calculate_total_cost. rewrite for_each_cons. unfold cost_columns, getitem, loc.
  destruct (lookup_col sent_col (columns df)) as [sent|]; [|done].
  destruct H as [H | [_ H]]; [done|]. by rewrite H.
Qed.

Lemma calculate_total_cost_missing_column_witness :
  calculate_total_cost example_costs example_llms ["A"] "price_sent" "cost_rec"
    default_sent_col default_received_col = Raise KeyError /\
  calculate_total_cost example_costs example_llms [] "price_sent" "cost_rec"
    default_sent_col default_received_col = Ok example_costs.
Proof.
  apply (calculate_total_cost_missing_column example_costs example_llms "A" []
           "price_sent" "cost_rec" default_sent_col default_received_col).
  right. split; [discriminate | reflexivity].
Defined.

(** X14: a call that returns has kept the number of rows and the column
    lengths, has left every column alone whose name is not a cost column of a
    requested model, and has put the new cost columns after the columns of the
    input, which keep their places. *)
Theorem calculate_total_cost_frame df_costs df_llms models cost_sent cost_rec
    sent_col rec_col out :
  wf df_costs ->
  calculate_total_cost df_costs df_llms models cost_sent cost_rec sent_col rec_col = Ok out ->
  index out = index df_costs /\
  wf out /\
  column_names df_costs `prefix_of` column_names out /\
  column_names out = fold_left add_name (cost_names models) (column_names df_costs) /\
  forall name, name ∉ cost_names models ->
               lookup_col name (columns out) = lookup_col name (columns df_costs).
Proof.
  intros Hwf H.
  destruct (calculate_total_cost_inv _ _ _ _ _ _ _ _ H) as (Hi & Hn & Hkeep & _ & Hwf').
  split; [done|]. split; [by apply Hwf'|]. rewrite Hn.
  split; [apply fold_add_name_prefix|]. done.
Qed.

Lemma calculate_total_cost_frame_witness :
  let out :=
    {| index := 2;
       columns :=
         [("m_tokens_sent", [of_Z 1; of_Z 2]); ("m_tokens_received", [of_Z 3; of_Z 4]);
          (question_col "A", zip_with Qcmult [of_Z 1; of_Z 2] [of_Z 10; of_Z 20]);
          (answer_col "A", zip_with Qcmult [of_Z 3; of_Z 4] [of_Z 30; of_Z 40]);
          (total_col "A",
           series_add (zip_with Qcmult [of_Z 1; of_Z 2] [of_Z 10; of_Z 20])
                      (zip_with Qcmult [of_Z 3; of_Z 4] [of_Z 30; of_Z 40]))] |} in
  index out = index two_rows /\
  wf out /\
  column_names two_rows `prefix_of` column_names out /\
  column_names out = fold_left add_name (cost_names ["A"]) (column_names two_rows) /\
  forall name, name ∉ cost_names ["A"] ->
               lookup_col name (columns out) = lookup_col name (columns two_rows).
Proof.
  apply (calculate_total_cost_frame two_rows duplicated_llms ["A"] "cost_sent" "cost_rec"
           default_sent_col default_received_col).
  - repeat constructor.
  - reflexivity.
Defined.

(** X15: in a table that the call returns, for every requested model and
    every row, the total cost is the sum of the question cost and the answer
    cost of that row, whatever the pricing table holds. *)
Theorem calculate_total_cost_total_is_sum df_costs df_llms models cost_sent cost_rec
    sent_col rec_col out m i :
  wf df_costs ->
  calculate_total_cost df_costs df_llms models cost_sent cost_rec sent_col rec_col = Ok out ->
  m ∈ models -> i < index out ->
  exists x y,
    cell out (question_col m) i = Some x /\
    cell out (answer_col m) i = Some y /\
    cell out (total_col m) i = Some (x + y)%Qc.
Proof.
  intros Hwf H Hm Hi.
  destruct (calculate_total_cost_inv _ _ _ _ _ _ _ _ H) as (_ & _ & _ & Hsum & Hwf').
  destruct (Hsum m Hm) as (q & a & Hq & Ha & Ht).
  pose proof (lookup_col_length _ _ _ (Hwf' Hwf) Hq) as Hlq.
  pose proof (lookup_col_length _ _ _ (Hwf' Hwf) Ha) as Hla.
  destruct (lookup_lt_is_Some_2 q i) as [x Hx]; [lia|].
  destruct (lookup_lt_is_Some_2 a i) as [y Hy]; [lia|].
  exists x, y.
  rewrite (cell_lookup _ _ _ _ Hq), (cell_lookup _ _ _ _ Ha), (cell_lookup _ _ _ _ Ht).
  unfold series_add. rewrite lookup_zip_with, Hx, Hy. done.
Qed.

Lemma calculate_total_cost_total_is_sum_witness :
  let out :=
    {| index := 2;
       columns :=
         [("m_tokens_sent", [of_Z 1; of_Z 2]); ("m_tokens_received", [of_Z 3; of_Z 4]);
          (question_col "A", zip_with Qcmult [of_Z 1; of_Z 2] [of_Z 10; of_Z 20]);
          (answer_col "A", zip_with Qcmult [of_Z 3; of_Z 4] [of_Z 30; of_Z 40]);
          (total_col "A",
           series_add (zip_with Qcmult [of_Z 1; of_Z 2] [of_Z 10; of_Z 20])
                      (zip_with Qcmult [of_Z 3; of_Z 4] [of_Z 30; of_Z 40]))] |} in
  exists x y,
    cell out (question_col "A") 1 = Some x /\
    cell out (answer_col "A") 1 = Some y /\
    cell out (total_col "A") 1 = Some (x + y)%Qc.
Proof.
  apply (calculate_total_cost_total_is_sum two_rows duplicated_llms ["A"]
           "cost_sent" "cost_rec" default_sent_col default_received_col _ "A" 1).
  - repeat constructor.
  - reflexivity.
  - apply list_elem_of_here.
  - simpl. lia.
Defined.

Lemma for_each_app {A S} (body : S -> A -> result S) xs ys s :
  for_each body (xs ++ ys) s = (s' ← for_each body xs s; for_each body ys s').
Proof.
  revert s. induction xs as [|x xs IH]; intros s; [done|].
  cbn [app for_each]. destruct (body s x) as [s'|e]; [|done].
  rewrite !bind_Ok. apply IH.
Qed.

(** A table that already holds the costs of the requested models comes back
    unchanged. *)
Lemma calculate_total_cost_fixed p cost_sent cost_rec sent_col rec_col
    (sent received sent_rates rec_rates : Series) models out :
  wf out -> wf_pricing p ->
  lookup_col sent_col (columns out) = Some sent ->
  lookup_col rec_col (columns out) = Some received ->
  lookup_col cost_sent (price_columns p) = Some sent_rates ->
  lookup_col cost_rec (price_columns p) = Some rec_rates ->
  (forall m, m ∈ models -> entries p m = 1) ->
  rec_col ∉ cost_names models ->
  (forall m, m ∈ models -> has_costs out p cost_sent cost_rec sent received m) ->
  calculate_total_cost out p models cost_sent cost_rec sent_col rec_col = Ok out.
Proof.
  intros Hwf Hwfp Hs Hr Hcs Hcr Hone Hrn Hcosts. unfold calculate_total_cost.
  induction models as [|m models IH]; [done|].
  rewrite for_each_cons.
  rewrite (cost_columns_Ok p cost_sent cost_rec sent_col rec_col out m
             sent received sent_rates rec_rates); try done.
  - destruct (Hcosts m (list_elem_of_here _ _)) as (Hq & Ha & Ht).
    rewrite (set_col_id _ _ _ Hq), (set_col_id _ _ _ Ha), (set_col_id _ _ _ Ht).
    rewrite bind_Ok. destruct out as [n cols]. cbn [index columns].
    apply IH.
    + intros m' Hm'. by apply Hone, list_elem_of_further.
    + intros Hx. by apply Hrn, cost_names_tail.
    + intros m' Hm'. by apply Hcosts, list_elem_of_further.
  - by apply Hone, list_elem_of_here.
  - intros ->. apply Hrn, cost_names_head. auto.
Qed.

(** X16: applying the call to its own result changes nothing: when every
    requested model has exactly one pricing entry and the token columns are
    not cost columns, the call returns a table [out], and the call on [out]
    with the same arguments returns [out] again. *)
Theorem calculate_total_cost_idempotent df_costs df_llms models cost_sent cost_rec
    sent_col rec_col (sent received sent_rates rec_rates : Series) :
  wf df_costs -> wf_pricing df_llms ->
  lookup_col sent_col (columns df_costs) = Some sent ->
  lookup_col rec_col (columns df_costs) = Some received ->
  lookup_col cost_sent (price_columns df_llms) = Some sent_rates ->
  lookup_col cost_rec (price_columns df_llms) = Some rec_rates ->
  (forall m, m ∈ models -> entries df_llms m = 1) ->
  sent_col ∉ cost_names models -> rec_col ∉ cost_names models ->
  exists out,
    calculate_total_cost df_costs df_llms models cost_sent cost_rec sent_col rec_col
      = Ok out /\
    calculate_total_cost out df_llms models cost_sent cost_rec sent_col rec_col = Ok out.
Proof.
  intros Hwf Hwfp Hs Hr Hcs Hcr Hone Hsn Hrn.
  destruct (calculate_total_cost_spec df_llms cost_sent cost_rec sent_col rec_col
              sent received sent_rates rec_rates models Hwfp Hcs Hcr Hone Hsn Hrn
              df_costs Hwf Hs Hr)
    as (out & Hout & Hwfo & _ & _ & Hkeep & Hcosts).
  exists out. split; [done|].
  apply (calculate_total_cost_fixed _ _ _ _ _ sent received sent_rates rec_rates);
    try done.
  - by rewrite Hkeep.
  - by rewrite Hkeep.
Qed.

Lemma calculate_total_cost_idempotent_witness :
  exists out,
    calculate_total_cost example_costs example_llms ["A"; "A"] "cost_sent" "cost_rec"
      default_sent_col default_received_col = Ok out /\
    calculate_total_cost out example_llms ["A"; "A"] "cost_sent" "cost_rec"
      default_sent_col default_received_col = Ok out.
Proof.
  apply (calculate_total_cost_idempotent example_costs example_llms ["A"; "A"]
           "cost_sent" "cost_rec" default_sent_col default_received_col
           [decimal 266 100] [decimal 532 100] [decimal 1 100] [decimal 15 1000]).
  - exact wf_example_costs.
  - exact wf_example_llms.
  - reflexivity.
  - reflexivity.
  - reflexivity.
  - reflexivity.
  - intros m Hm. apply elem_of_cons in Hm as [-> | Hm]; [reflexivity|].
    apply list_elem_of_singleton in Hm. subst m. reflexivity.
  - apply default_cols_no_clash.
  - apply default_cols_no_clash.
Defined.

(** X18: the order in which the models are requested decides the order of the
    cost columns only: for two orderings of the same models (one pricing
    entry each, token columns that are not cost columns) both calls return,
    with the same number of rows and the same content under every column
    name. *)
Theorem calculate_total_cost_model_order df_costs df_llms models models' cost_sent cost_rec
    sent_col rec_col (sent received sent_rates rec_rates : Series) :
  wf df_costs -> wf_pricing df_llms ->
  lookup_col sent_col (columns df_costs) = Some sent ->
  lookup_col rec_col (columns df_costs) = Some received ->
  lookup_col cost_sent (price_columns df_llms) = Some sent_rates ->
  lookup_col cost_rec (price_columns df_llms) = Some rec_rates ->
  (forall m, m ∈ models -> entries df_llms m = 1) ->
  sent_col ∉ cost_names models -> rec_col ∉ cost_names models ->
  models ≡ₚ models' ->
  exists out out',
    calculate_total_cost df_costs df_llms models cost_sent cost_rec sent_col rec_col
      = Ok out /\
    calculate_total_cost df_costs df_llms models' cost_sent cost_rec sent_col rec_col
      = Ok out' /\
    same_contents out out'.
Proof.
  intros Hwf Hwfp Hs Hr Hcs Hcr Hone Hsn Hrn Hperm.
  assert (Hnames : forall x, x ∈ cost_names models <-> x ∈ cost_names models').
  { intros x. rewrite !elem_of_cost_names. split; intros (m & Hm & Hx); exists m.
    - by rewrite <- Hperm.
    - by rewrite Hperm. }
  destruct (calculate_total_cost_spec df_llms cost_sent cost_rec sent_col rec_col
              sent received sent_rates rec_rates models Hwfp Hcs Hcr Hone Hsn Hrn
              df_costs Hwf Hs Hr)
    as (out & Hout & _ & Hi & _ & Hkeep & Hcosts).
  destruct (calculate_total_cost_spec df_llms cost_sent cost_rec sent_col rec_col
              sent received sent_rates rec_rates models' Hwfp Hcs Hcr) with (df := df_costs)
    as (out' & Hout' & _ & Hi' & _ & Hkeep' & Hcosts'); try done.
  { intros m Hm. apply Hone. by rewrite Hperm. }
  { intros Hx. by apply Hsn, Hnames. }
  { intros Hx. by apply Hrn, Hnames. }
  exists out, out'. split; [done|]. split; [done|]. split; [congruence|].
  intros name. destruct (decide (name ∈ cost_names models)) as [Hin|Hnin].
  - apply elem_of_cost_names in Hin as (m & Hm & Hx).
    destruct (Hcosts m Hm) as (Hq & Ha & Ht).
    destruct (Hcosts' m) as (Hq' & Ha' & Ht'); [by rewrite <- Hperm|].
    destruct Hx as [-> | [-> | ->]]; congruence.
  - rewrite Hkeep by done. rewrite Hkeep'; [done|]. intros Hx. by apply Hnin, Hnames.
Qed.

Lemma wf_two_models_llms : wf_pricing two_models_llms.
Proof. repeat constructor. Qed.

Lemma calculate_total_cost_model_order_witness :
  exists out out',
    calculate_total_cost example_costs two_models_llms ["A"; "B"] "cost_sent" "cost_rec"
      default_sent_col default_received_col = Ok out /\
    calculate_total_cost example_costs two_models_llms ["B"; "A"] "cost_sent" "cost_rec"
      default_sent_col default_received_col = Ok out' /\
    same_contents out out'.
Proof.
  apply (calculate_total_cost_model_order example_costs two_models_llms
           ["A"; "B"] ["B"; "A"] "cost_sent" "cost_rec"
           default_sent_col default_received_col
           [decimal 266 100] [decimal 532 100]
           [decimal 1 100; decimal 2 100] [decimal 15 1000; decimal 25 1000]).
  - exact wf_example_costs.
  - exact wf_two_models_llms.
  - reflexivity.
  - reflexivity.
  - reflexivity.
  - reflexivity.
  - intros m Hm. apply elem_of_cons in Hm as [-> | Hm]; [reflexivity|].
    apply list_elem_of_singleton in Hm. subst m. reflexivity.
  - apply default_cols_no_clash.
  - apply default_cols_no_clash.
  - apply perm_swap.
Defined.

(** * The two functions in sequence *)

Lemma scenario_columns_no_clash models name :
  name ∈ scenario_columns -> name ∉ cost_names models.
Proof.
  intros Hn (m & _ & Hx)%elem_of_cost_names.
  unfold scenario_columns in Hn. rewrite !elem_of_cons in Hn.
  unfold question_col, answer_col, total_col in Hx. simpl in Hx.
  destruct Hn as [-> | [-> | [-> | [-> | [-> | [-> | [-> | Hn]]]]]]];
    [destruct Hx as [Hx | [Hx | Hx]]; discriminate ..|].
  by apply elem_of_nil in Hn.
Qed.

Lemma mapM_ext_fun {A B} (f g : A -> option B) (l : list A) :
  (forall x, f x = g x) -> mapM f l = mapM g l.
Proof. intros H. induction l as [|x l IH]; simpl; [done | by rewrite H, IH]. Qed.

Lemma records_same d d' :
  index d = index d' ->
  (forall name, name ∈ scenario_columns ->
                lookup_col name (columns d) = lookup_col name (columns d')) ->
  records d = records d'.
Proof.
  intros Hi Hl. unfold records. rewrite Hi. apply mapM_ext_fun. intros i.
  unfold row_at, cell.
  rewrite !Hl; [done | unfold scenario_columns; rewrite !elem_of_cons; tauto ..].
Qed.

(** The cost attribution of a scenario table given by its rows. *)
Lemma calculate_total_cost_table_of rs p models cost_sent cost_rec
    (sent_rates rec_rates : Series) :
  wf_pricing p ->
  lookup_col cost_sent (price_columns p) = Some sent_rates ->
  lookup_col cost_rec (price_columns p) = Some rec_rates ->
  (forall m, m ∈ models -> entries p m = 1) ->
  exists out,
    calculate_total_cost (table_of rs) p models cost_sent cost_rec
      default_sent_col default_received_col = Ok out /\
    index out = length rs /\
    records out = Some rs /\
    forall m i r, m ∈ models -> rs !! i = Some r ->
                  row_costs out p cost_sent cost_rec m i r.
Proof.
  intros Hwfp Hcs Hcr Hone.
  destruct (default_cols_no_clash models) as [Hsn Hrn].
  destruct (calculate_total_cost_spec p cost_sent cost_rec _ _
              (map m_tokens_sent rs) (map m_tokens_received rs) sent_rates rec_rates
              models Hwfp Hcs Hcr Hone Hsn Hrn (table_of rs) (wf_table_of rs)
              eq_refl eq_refl)
    as (out & Hout & _ & Hi & _ & Hkeep & Hcosts).
  exists out. split; [done|]. split; [done|]. split.
  - rewrite <- (records_table_of rs). apply records_same; [done|].
    intros name Hname. apply Hkeep. by apply scenario_columns_no_clash.
  - intros m i r Hm Hr. unfold row_costs.
    eapply has_costs_cells; [by apply Hcosts | |];
      by apply (lookup_map_Some _ rs i r).
Qed.

(** X19: a table built by [make_df_cost] can always be handed to
    [calculate_total_cost] with the default token columns: for a pricing
    table with one entry per requested model the call returns, the scenario
    rows are the ones that were built, and in every row the question, answer
    and total cost of every model are the row's token volumes (computed from
    the row's parameters; with 800 for [employees] in the loop variant) times
    the model's rates. *)
Theorem make_df_cost_then_calculate_total_cost :
  (forall e cs qs as_ t df p models cost_sent cost_rec (sent_rates rec_rates : Series),
      CostModel.make_df_cost e cs qs as_ t = Ok df ->
      wf_pricing p ->
      lookup_col cost_sent (price_columns p) = Some sent_rates ->
      lookup_col cost_rec (price_columns p) = Some rec_rates ->
      (forall m, m ∈ models -> entries p m = 1) ->
      exists rs out,
        records df = Some rs /\
        calculate_total_cost df p models cost_sent cost_rec
          default_sent_col default_received_col = Ok out /\
        index out = length cs * length qs * length as_ /\
        records out = Some rs /\
        forall m i r, m ∈ models -> rs !! i = Some r ->
                      tokens_from_800 r /\ row_costs out p cost_sent cost_rec m i r) /\
  (forall es cs qs as_ ts p models cost_sent cost_rec (sent_rates rec_rates : Series),
      wf_pricing p ->
      lookup_col cost_sent (price_columns p) = Some sent_rates ->
      lookup_col cost_rec (price_columns p) = Some rec_rates ->
      (forall m, m ∈ models -> entries p m = 1) ->
      exists df rs out,
        Functions.make_df_cost es cs qs as_ ts = Ok df /\
        records df = Some rs /\
        calculate_total_cost df p models cost_sent cost_rec
          default_sent_col default_received_col = Ok out /\
        index out = length es * length cs * length qs * length as_ * length ts /\
        records out = Some rs /\
        forall m i r, m ∈ models -> rs !! i = Some r ->
                      tokens_from_parameters r /\
                      row_costs out p cost_sent cost_rec m i r).
Proof.
  split.
  - intros e cs qs as_ t df p models cost_sent cost_rec sent_rates rec_rates
           ->%make_df_cost_loop_inv Hwfp Hcs Hcr Hone.
    destruct (calculate_total_cost_table_of (loop_rows e cs qs as_ t) p models
                cost_sent cost_rec sent_rates rec_rates Hwfp Hcs Hcr Hone)
      as (out & Hout & Hi & Hrec & Hrows).
    exists (loop_rows e cs qs as_ t), out.
    split; [apply records_table_of|]. split; [done|].
    split; [by rewrite Hi, length_loop_rows|]. split; [done|].
    intros m i r Hm Hr. split; [|by apply Hrows].
    pose proof (loop_rows_tokens e cs qs as_ t) as Ht.
    rewrite Forall_lookup in Ht. by eapply Ht.
  - intros es cs qs as_ ts p models cost_sent cost_rec sent_rates rec_rates
           Hwfp Hcs Hcr Hone.
    destruct (calculate_total_cost_table_of (grid_rows es cs qs as_ ts) p models
                cost_sent cost_rec sent_rates rec_rates Hwfp Hcs Hcr Hone)
      as (out & Hout & Hi & Hrec & Hrows).
    exists (table_of (grid_rows es cs qs as_ ts)), (grid_rows es cs qs as_ ts), out.
    split; [apply make_df_cost_grid|]. split; [apply records_table_of|]. split; [done|].
    split; [by rewrite Hi, length_grid_rows|]. split; [done|].
    intros m i r Hm Hr. split; [|by apply Hrows].
    pose proof (grid_rows_tokens es cs qs as_ ts) as Ht.
    rewrite Forall_lookup in Ht. by eapply Ht.
Qed.

Lemma make_df_cost_then_calculate_total_cost_witness :
  exists df rs out,
    Functions.make_df_cost [of_Z 800] [of_Z 50; of_Z 100] [of_Z 50] [of_Z 100]
      [decimal 133 100] = Ok df /\
    records df = Some rs /\
    calculate_total_cost df two_models_llms ["A"; "B"] "cost_sent" "cost_rec"
      default_sent_col default_received_col = Ok out /\
    index out = 1 * 2 * 1 * 1 * 1 /\
    records out = Some rs /\
    forall m i r, m ∈ ["A"; "B"] -> rs !! i = Some r ->
                  tokens_from_parameters r /\
                  row_costs out two_models_llms "cost_sent" "cost_rec" m i r.
Proof.
  apply (proj2 make_df_cost_then_calculate_total_cost [of_Z 800] [of_Z 50; of_Z 100]
           [of_Z 50] [of_Z 100] [decimal 133 100] two_models_llms ["A"; "B"]
           "cost_sent" "cost_rec"
           [decimal 1 100; decimal 2 100] [decimal 15 1000; decimal 25 1000]).
  - exact wf_two_models_llms.
  - reflexivity.
  - reflexivity.
  - intros m Hm. apply elem_of_cons in Hm as [-> | Hm]; [reflexivity|].
    apply list_elem_of_singleton in Hm. subst m. reflexivity.
Defined.

Lemma np_mul_same_length (a b : Series) :
  length a = length b -> np_mul a b = Ok (series_mul a b).
Proof. intros H. unfold np_mul. by rewrite H, Nat.eqb_refl. Qed.

Lemma loc_Ok p model col c :
  lookup_col col (price_columns p) = Some c ->
  loc p (model_mask p model) col = Ok (select (model_mask p model) c).
Proof. intros H. unfold loc. by rewrite H. Qed.

(** X20: when a model has as many pricing entries as the scenario table has
    rows, the call for that model returns and prices row [i] with the model's
    [i]-th entry: the question and answer cost columns are the element-wise
    products of the token columns with the model's selected rates, and the
    total is their sum. *)
Theorem calculate_total_cost_entry_per_row df_costs df_llms m cost_sent cost_rec
    sent_col rec_col (sent received sent_rates rec_rates : Series) :
  wf df_costs -> wf_pricing df_llms ->
  lookup_col sent_col (columns df_costs) = Some sent ->
  lookup_col rec_col (columns df_costs) = Some received ->
  lookup_col cost_sent (price_columns df_llms) = Some sent_rates ->
  lookup_col cost_rec (price_columns df_llms) = Some rec_rates ->
  entries df_llms m = index df_costs ->
  rec_col <> question_col m ->
  let question := series_mul sent (select (model_mask df_llms m) sent_rates) in
  let answer := series_mul received (select (model_mask df_llms m) rec_rates) in
  exists out,
    calculate_total_cost df_costs df_llms [m] cost_sent cost_rec sent_col rec_col = Ok out /\
    index out = index df_costs /\
    lookup_col (question_col m) (columns out) = Some question /\
    lookup_col (answer_col m) (columns out) = Some answer /\
    lookup_col (total_col m) (columns out) = Some (series_add question answer).
Proof.
  intros Hwf Hwfp Hs Hr Hcs Hcr Hn Hne question answer.
  pose proof (lookup_col_length _ _ _ Hwf Hs) as Hls.
  pose proof (lookup_col_length _ _ _ Hwf Hr) as Hlr.
  pose proof (loc_length _ m _ _ Hwfp (loc_Ok _ m _ _ Hcs)) as Hlcs.
  pose proof (loc_length _ m _ _ Hwfp (loc_Ok _ m _ _ Hcr)) as Hlcr.
  assert (Hlq : length question = index df_costs).
  { unfold question, series_mul. rewrite length_zip_with. lia. }
  assert (Hla : length answer = index df_costs).
  { unfold answer, series_mul. rewrite length_zip_with. lia. }
  eexists. split.
  - unfold calculate_total_cost. rewrite for_each_cons. unfold cost_columns.
    rewrite (getitem_Ok _ _ _ Hs). rewrite bind_Ok.
    rewrite (loc_Ok _ _ _ _ Hcs). rewrite bind_Ok.
    rewrite np_mul_same_length by congruence. rewrite bind_Ok. fold question.
    rewrite setitem_Ok by done. rewrite bind_Ok.
    rewrite (getitem_Ok _ rec_col received)
      by (cbn [columns]; rewrite lookup_col_set_col_ne by done; exact Hr).
    rewrite bind_Ok.
    rewrite (loc_Ok _ _ _ _ Hcr). rewrite bind_Ok.
    rewrite np_mul_same_length by congruence. rewrite bind_Ok. fold answer.
    rewrite setitem_Ok by done. rewrite bind_Ok.
    rewrite (getitem_Ok _ (question_col m) question).
    2:{ cbn [columns].
        rewrite lookup_col_set_col_ne by (intros E; symmetry in E; by apply question_answer_ne in E).
        apply lookup_col_set_col_eq. }
    rewrite bind_Ok.
    rewrite (getitem_Ok _ (answer_col m) answer) by (cbn [columns]; apply lookup_col_set_col_eq).
    rewrite bind_Ok.
    rewrite setitem_Ok by (cbn [index]; rewrite length_series_add; congruence).
    rewrite bind_Ok. reflexivity.
  - cbn [index columns]. split; [done|]. rewrite !lookup_col_set_col.
    split; [|split].
    + rewrite decide_False by (apply not_eq_sym, question_total_ne).
      rewrite decide_False by (apply not_eq_sym, question_answer_ne).
      by rewrite decide_True.
    + rewrite decide_False by (apply not_eq_sym, answer_total_ne).
      by rewrite decide_True.
    + by rewrite decide_True.
Qed.

Lemma calculate_total_cost_entry_per_row_witness :
  let question := series_mul [of_Z 1; of_Z 2]
                    (select (model_mask duplicated_llms "A") [of_Z 10; of_Z 20]) in
  let answer := series_mul [of_Z 3; of_Z 4]
                  (select (model_mask duplicated_llms "A") [of_Z 30; of_Z 40]) in
  exists out,
    calculate_total_cost two_rows duplicated_llms ["A"] "cost_sent" "cost_rec"
      default_sent_col default_received_col = Ok out /\
    index out = index two_rows /\
    lookup_col (question_col "A") (columns out) = Some question /\
    lookup_col (answer_col "A") (columns out) = Some answer /\
    lookup_col (total_col "A") (columns out) = Some (series_add question answer).
Proof.
  apply (calculate_total_cost_entry_per_row two_rows duplicated_llms "A"
           "cost_sent" "cost_rec" default_sent_col default_received_col
           [of_Z 1; of_Z 2] [of_Z 3; of_Z 4] [of_Z 10; of_Z 20] [of_Z 30; of_Z 40]).
  - repeat constructor.
  - repeat constructor.
  - reflexivity.
  - reflexivity.
  - reflexivity.
  - reflexivity.
  - reflexivity.
  - discriminate.
Defined.
